(** * SimpleNER: a shallow embedding of [spacy/pipeline/simple_ner.py]

    The pipe keeps its label registry in the [attrs] dictionary of the
    ["biluo"] node of a thinc model graph.  The graph is modelled as a store
    of nodes in [model.walk()] order; a reference ([model.get_ref]) is an
    index into that store, so that a node reached through [walk()] and the
    same node reached through [get_ref] are one object.  Python exceptions
    are values of [exn]; a call that may raise returns a [result]. *)

From Stdlib Require Import Ascii.
From stdpp Require Import gmap strings list sorting fin_maps.

(** ** Exceptions and results *)

Inductive exn : Type :=
  | KeyError (key : string)
  | TypeError (msg : string)
  | IndexError (msg : string)
  | ValueError (msg : string)
  | NameError (name : string).

Inductive result (A : Type) : Type :=
  | Ok (a : A)
  | Raise (e : exn).
Arguments Ok {A} a.
Arguments Raise {A} e.

#[global] Instance result_ret : MRet result := λ A a, Ok a.
#[global] Instance result_bind : MBind result := λ A B f r,
  match r with
  | Ok a => f a
  | Raise e => Raise e
  end.

#[global] Instance result_fmap : FMap result := λ A B f r,
  match r with
  | Ok a => Ok (f a)
  | Raise e => Raise e
  end.

(** [for x in xs: body] where the body may raise and threads an accumulator. *)
Fixpoint for_each {A S : Type} (body : S → A → result S) (acc : S) (xs : list A)
  : result S :=
  match xs with
  | [] => Ok acc
  | x :: rest => acc' ← body acc x; for_each body acc' rest
  end.

(** A list comprehension [[f x for x in xs]] whose element expression may raise. *)
Fixpoint comprehension {A B : Type} (f : A → result B) (xs : list A)
  : result (list B) :=
  match xs with
  | [] => Ok []
  | x :: rest => y ← f x; ys ← comprehension f rest; Ok (y :: ys)
  end.

(** ** Name resolution in the module

    The names bound at module level of [simple_ner.py] (its imports, the
    class and the three helper functions) and the builtins the file uses.
    Loading any other global name raises [NameError]. *)

Definition module_globals : list string :=
  [ "List"; "Floats2d"; "CategoricalCrossentropy"; "set_dropout_rate";
    "Example"; "Doc"; "component"; "link_vectors_to_models"; "Pipe";
    "SimpleNER"; "_get_sample"; "_set_labels"; "_get_labels" ].

Definition builtins : list string :=
  [ "len"; "range"; "enumerate"; "zip"; "list"; "sorted"; "set"; "hasattr" ].

Definition load_global (name : string) : result unit :=
  if bool_decide (name ∈ module_globals ++ builtins) then Ok tt
  else Raise (NameError name).

(** ** The model graph *)

(** The values stored under [attrs["labels"]]: [None] or a list of labels. *)
Inductive attr : Type :=
  | ANone
  | ALabels (ls : list string).

Record Node : Type := mkNode {
  name : string;
  attrs : gmap string attr;
  dims : gmap string (option nat)
}.

Record Model : Type := mkModel {
  nodes : list Node;          (* the nodes, in [walk()] order *)
  refs : gmap string nat      (* [_refs]: reference name to node *)
}.

Definition set_attrs (n : Node) (a : gmap string attr) : Node :=
  {| name := name n; attrs := a; dims := dims n |}.

Definition set_dims (n : Node) (d : gmap string (option nat)) : Node :=
  {| name := name n; attrs := attrs n; dims := d |}.

(** [node.attrs[key] = v] on the node stored at [i]. *)
Definition setitem_attrs (m : Model) (i : nat) (key : string) (v : attr) : Model :=
  match nodes m !! i with
  | Some n => {| nodes := <[i := set_attrs n (<[key := v]> (attrs n))]> (nodes m);
                 refs := refs m |}
  | None => m
  end.

(** [model.get_ref(r)]: [KeyError] when the reference is not set. *)
Definition get_ref (m : Model) (r : string) : result (nat * Node) :=
  match refs m !! r with
  | Some i =>
      match nodes m !! i with
      | Some n => Ok (i, n)
      | None => Raise (KeyError r)
      end
  | None => Raise (KeyError r)
  end.

(** [node.attrs[key]] *)
Definition getitem_attrs (n : Node) (key : string) : result attr :=
  match attrs n !! key with
  | Some v => Ok v
  | None => Raise (KeyError key)
  end.

Definition is_None (v : attr) : bool :=
  match v with ANone => true | ALabels _ => false end.

(** [node.attrs.get(key)] *)
Definition attrs_get (n : Node) (key : string) : attr :=
  match attrs n !! key with
  | Some v => v
  | None => ANone
  end.

(** ** [SimpleNER.labels], [add_label], [get_tag_names] *)

Definition labels (m : Model) : result attr :=
  '(_, biluo) ← get_ref m "biluo";
  getitem_attrs biluo "labels".

Definition add_label (m : Model) (label : string) : result Model :=
  '(i, biluo) ← get_ref m "biluo";
  v ← getitem_attrs biluo "labels";
  match v with
  | ANone => Ok (setitem_attrs m i "labels" (ALabels [label]))
  | ALabels ls =>
      if bool_decide (label ∈ ls) then Ok m
      else Ok (setitem_attrs m i "labels" (ALabels (ls ++ [label])))
  end.

(** Iterating [self.labels]: [None] is not iterable. *)
Definition iter_labels (v : attr) : result (list string) :=
  match v with
  | ALabels ls => Ok ls
  | ANone => Raise (TypeError "'NoneType' object is not iterable")
  end.

Definition get_tag_names (m : Model) : result (list string) :=
  labels_b ← labels m ≫= iter_labels;
  labels_i ← labels m ≫= iter_labels;
  labels_l ← labels m ≫= iter_labels;
  labels_u ← labels m ≫= iter_labels;
  Ok (((λ label, "B-" +:+ label) <$> labels_b) ++
      ((λ label, "I-" +:+ label) <$> labels_i) ++
      ((λ label, "L-" +:+ label) <$> labels_l) ++
      ((λ label, "U-" +:+ label) <$> labels_u) ++
      ["O"]).

(** ** [_set_labels] *)

(** [sorted] on strings: any sort gives the same list on a total order. *)
Definition sorted (ls : list string) : list string := merge_sort String.le ls.

(** The loop over [model.walk()]: the first node named ["biluo"] whose
    [labels] attribute is [None] (or missing) gets the sorted labels, and the
    loop stops there. *)
Fixpoint _set_labels_walk (walk : list Node) (ls : list string) : list Node :=
  match walk with
  | [] => []
  | node :: rest =>
      if bool_decide (name node = "biluo") &&
         is_None (attrs_get node "labels")
      then set_attrs node (<["labels" := ALabels (sorted ls)]> (attrs node)) :: rest
      else node :: _set_labels_walk rest ls
  end.

Definition _set_labels (m : Model) (ls : list string) : Model * nat :=
  let m' := {| nodes := _set_labels_walk (nodes m) ls; refs := refs m |} in
  let n_actions := length ls * 4 + 1 in
  (m', n_actions).

(** ** Documents, spans and examples *)

Record Span : Type := mkSpan {
  span_start : nat;
  span_end : nat;            (* exclusive *)
  span_label : string
}.

#[global] Instance Span_eq_dec : EqDecision Span.
Proof. solve_decision. Defined.

Record Doc : Type := mkDoc {
  tokens : list string;
  ents : list Span
}.

(** [len(doc)] *)
Definition len (d : Doc) : nat := length (tokens d).

Definition set_ents (d : Doc) (e : list Span) : Doc :=
  {| tokens := tokens d; ents := e |}.

Record TokenAnnotation : Type := mkTokenAnnotation { entities : list string }.
Record GoldParse : Type := mkGoldParse { ner : list string }.

Record Example : Type := mkExample {
  doc : Doc;
  token_annotation : TokenAnnotation;
  gold : GoldParse
}.

(** ** [_get_labels] *)

(** [s.split("-", 1)]: cut at the first hyphen, when there is one. *)
Fixpoint split_hyphen (s : string) : option (string * string) :=
  match s with
  | EmptyString => None
  | String c rest =>
      if bool_decide (c = "-"%char) then Some (EmptyString, rest)
      else match split_hyphen rest with
           | Some (before, after) => Some (String c before, after)
           | None => None
           end
  end.

Definition split1 (s : string) : list string :=
  match split_hyphen s with
  | Some (before, after) => [before; after]
  | None => [s]
  end.

(** [_, label = parts] *)
Definition unpack2 (parts : list string) : result (string * string) :=
  match parts with
  | [a; b] => Ok (a, b)
  | [] | [_] => Raise (ValueError "not enough values to unpack")
  | _ => Raise (ValueError "too many values to unpack")
  end.

Definition _get_labels_tag (labels : gset string) (ner_tag : string)
  : result (gset string) :=
  if bool_decide (ner_tag ≠ "O") && bool_decide (ner_tag ≠ "-") then
    '(_, label) ← unpack2 (split1 ner_tag);
    Ok ({[ label ]} ∪ labels)
  else Ok labels.

Definition _get_labels (examples : list Example) : result (list string) :=
  labels ← for_each
    (λ labels eg, for_each _get_labels_tag labels (entities (token_annotation eg)))
    (∅ : gset string) examples;
  Ok (sorted (elements labels)).

(** ** Arrays *)

(** The numeric interface of array elements: zero, addition and the strict
    comparison used by [argmax]. *)
Class Float (F : Type) : Type := {
  f0 : F;
  fadd : F → F → F;
  fltb : F → F → bool
}.

(** A two-dimensional array of shape [(length rows, ncols)]. *)
Record Floats2d (F : Type) : Type := mkFloats2d {
  ncols : nat;
  rows : list (list F)
}.
Arguments mkFloats2d {F} ncols rows.
Arguments ncols {F} f.
Arguments rows {F} f.

Definition shape {F} (a : Floats2d F) : nat * nat := (length (rows a), ncols a).

(** [ops.alloc2f(n, m)]: an array of zeros. *)
Definition alloc2f `{Float F} (n m : nat) : Floats2d F :=
  mkFloats2d m (replicate n (replicate m f0)).

(** Integer arrays, of one or two dimensions. *)
Inductive Ints : Type :=
  | Ints1d (xs : list nat)
  | Ints2d (xss : list (list nat)).

(** Index of the first maximum of a row scanned from [i], with the best
    candidate so far. *)
Fixpoint argmax_from `{Float F} (best_i : nat) (best : F) (i : nat) (row : list F)
  : nat :=
  match row with
  | [] => best_i
  | x :: rest =>
      if fltb best x then argmax_from i x (S i) rest
      else argmax_from best_i best (S i) rest
  end.

Definition argmax_row `{Float F} (row : list F) : result nat :=
  match row with
  | [] => Raise (ValueError "attempt to get argmax of an empty sequence")
  | x :: rest => Ok (argmax_from 0 x 1 rest)
  end.

(** [a.argmax(axis=1)]: a one-dimensional array, one index per row. *)
Definition argmax_axis1 `{Float F} (a : Floats2d F) : result Ints :=
  if bool_decide (ncols a = 0)
  then Raise (ValueError "attempt to get argmax of an empty sequence")
  else Ints1d <$> comprehension argmax_row (rows a).

(** [a[j, i]]: two indices need a two-dimensional array. *)
Definition getitem2 (a : Ints) (j i : nat) : result nat :=
  match a with
  | Ints1d _ =>
      Raise (IndexError "too many indices for array")
  | Ints2d xss =>
      match xss !! j ≫= (.!! i) with
      | Some x => Ok x
      | None => Raise (IndexError "index out of bounds")
      end
  end.

(** [xs[i]] on a Python list. *)
Definition getitem {A} (xs : list A) (i : nat) : result A :=
  match xs !! i with
  | Some x => Ok x
  | None => Raise (IndexError "list index out of range")
  end.

(** ** The tag scheme

    [spans_from_biluo_tags] and its inverse live in [spacy.gold], outside the
    file embedded here. *)

(** Modelled from the spec: the Tag of section 3, one of [B-l], [I-l], [L-l],
    [U-l] for a label [l], or [O]; [spacy.gold] is not part of the source. *)
Inductive Tag : Type :=
  | Begin (l : string)
  | Inside (l : string)
  | Last (l : string)
  | Unit (l : string)
  | Outside.

(** Modelled from the spec: the tag strings, as [get_tag_names] spells them. *)
Definition tag_name (t : Tag) : string :=
  match t with
  | Begin l => "B-" +:+ l
  | Inside l => "I-" +:+ l
  | Last l => "L-" +:+ l
  | Unit l => "U-" +:+ l
  | Outside => "O"
  end.

(** Modelled from the spec: reading a tag string back. *)
Definition parse_tag (s : string) : option Tag :=
  match s with
  | String "O" EmptyString => Some Outside
  | String "B" (String "-" l) => Some (Begin l)
  | String "I" (String "-" l) => Some (Inside l)
  | String "L" (String "-" l) => Some (Last l)
  | String "U" (String "-" l) => Some (Unit l)
  | _ => None
  end.

(** Modelled from the spec: [decode], the left-to-right scan of section 4.2
    that tracks one open span [(start, label)].  [O], [U] and [B] drop an
    open span; [I] keeps it only when the label agrees; [L] emits it only
    when the label agrees; a span still open at the end is dropped. *)
Fixpoint decode_from (i : nat) (open : option (nat * string)) (tags : list Tag)
  : list Span :=
  match tags with
  | [] => []
  | Outside :: rest => decode_from (S i) None rest
  | Unit l :: rest => mkSpan i (S i) l :: decode_from (S i) None rest
  | Begin l :: rest => decode_from (S i) (Some (i, l)) rest
  | Inside l :: rest =>
      match open with
      | Some (s, l') =>
          if bool_decide (l' = l) then decode_from (S i) (Some (s, l')) rest
          else decode_from (S i) None rest
      | None => decode_from (S i) None rest
      end
  | Last l :: rest =>
      match open with
      | Some (s, l') =>
          if bool_decide (l' = l) then mkSpan s (S i) l :: decode_from (S i) None rest
          else decode_from (S i) None rest
      | None => decode_from (S i) None rest
      end
  end.

(** Modelled from the spec: [decode(document, tags)]. *)
Definition decode (d : Doc) (tags : list Tag) : list Span :=
  decode_from 0 None tags.

(** Modelled from the spec: a span covers the tokens from its start up to,
    and without, its end. *)
Definition covers (sp : Span) (i : nat) : bool :=
  bool_decide (span_start sp ≤ i) && bool_decide (i < span_end sp).

(** Modelled from the spec: the tag a span gives to a token it covers. *)
Definition span_tag (sp : Span) (i : nat) : Tag :=
  if bool_decide (span_end sp - span_start sp = 1) then Unit (span_label sp)
  else if bool_decide (i = span_start sp) then Begin (span_label sp)
  else if bool_decide (i = span_end sp - 1) then Last (span_label sp)
  else Inside (span_label sp).

(** Modelled from the spec: tokens no span covers get [O]. *)
Definition tag_at (spans : list Span) (i : nat) : Tag :=
  match find (λ sp, covers sp i) spans with
  | Some sp => span_tag sp i
  | None => Outside
  end.

(** Modelled from the spec: two spans overlap when they share a token. *)
Definition overlap (a b : Span) : bool :=
  bool_decide (span_start a < span_end b) && bool_decide (span_start b < span_end a).

(** Modelled from the spec: some two spans of the list overlap. *)
Fixpoint overlapping (spans : list Span) : bool :=
  match spans with
  | [] => false
  | sp :: rest => existsb (overlap sp) rest || overlapping rest
  end.

(** Modelled from the spec: [encode(document, spans)] of section 4.2, one tag
    per token; it fails when spans overlap or a label is not registered. *)
Definition encode (registry : list string) (d : Doc) (spans : list Span)
  : result (list Tag) :=
  if overlapping spans then Raise (ValueError "overlapping spans")
  else if forallb (λ sp, bool_decide (span_label sp ∈ registry)) spans
  then Ok (tag_at spans <$> seq 0 (len d))
  else Raise (ValueError "label not in the registry").

(** Modelled from the spec: [spans_from_biluo_tags(doc, tags)] is [decode] on
    tag names; a string outside the tag vocabulary is rejected. *)
Definition spans_from_biluo_tags (d : Doc) (tags : list string) : result (list Span) :=
  parsed ← comprehension
    (λ s, match parse_tag s with
          | Some t => Ok t
          | None => Raise (ValueError "invalid tag")
          end) tags;
  Ok (decode d parsed).

(** ** [set_annotations] *)

Definition set_annotations_doc `{Float F}
  (tag_names : list string) (scores : list (Floats2d F)) (i : nat) (d : Doc)
  : result Doc :=
  doc_scores ← getitem scores i;
  actions ← argmax_axis1 doc_scores;
  tags ← comprehension
    (λ j, a ← getitem2 actions j i; getitem tag_names a) (seq 0 (len d));
  _ ← load_global "spans_from_biluo_tags";
  new_ents ← spans_from_biluo_tags d tags;
  Ok (set_ents d new_ents).

(** The loop over [enumerate(docs)]; documents are mutated in place, so the
    ones handled before an exception keep their new entities. *)
Fixpoint set_annotations_loop `{Float F}
  (tag_names : list string) (scores : list (Floats2d F)) (i : nat) (docs : list Doc)
  : list Doc * result unit :=
  match docs with
  | [] => ([], Ok tt)
  | d :: rest =>
      match set_annotations_doc tag_names scores i d with
      | Ok d' =>
          let '(rest', r) := set_annotations_loop tag_names scores (S i) rest in
          (d' :: rest', r)
      | Raise e => (d :: rest, Raise e)
      end
  end.

Definition set_annotations `{Float F}
  (m : Model) (docs : list Doc) (scores : list (Floats2d F))
  : list Doc * result unit :=
  match get_tag_names m with
  | Ok tag_names => set_annotations_loop tag_names scores 0 docs
  | Raise e => (docs, Raise e)
  end.

(** ** The thinc operations the pipe calls

    [CategoricalCrossentropy(names=...)] gives a loss function which, called
    on the scores and the gold tags of one document, returns a gradient and a
    loss or raises; [model.initialize] takes the model and an optional sample
    [(X, Y)]. *)
Class Thinc (F : Type) `{Float F} : Type := {
  CategoricalCrossentropy :
    list string → Floats2d F → list string → result (Floats2d F * F);
  initialize :
    Model → option (list Doc * list (Floats2d F)) → result Model
}.

(** ** [get_loss] *)

Definition get_loss `{Thinc F}
  (m : Model) (examples : list Example) (scores : list (Floats2d F))
  : result (F * list (Floats2d F)) :=
  names ← get_tag_names m;
  let loss_func := CategoricalCrossentropy names in
  for_each
    (λ '(loss, d_scores) '(eg, doc_scores),
       '(d_doc_scores, doc_loss) ← loss_func doc_scores (ner (gold eg));
       Ok (fadd loss doc_loss, d_scores ++ [d_doc_scores]))
    (f0, []) (zip examples scores).

(** ** [_get_sample] *)

(** A value bound to a global name.  Everything the module binds is a class,
    a function or a type alias, none of which can be iterated. *)
Inductive pyobj : Type := Global (name : string).

Definition load_name (name : string) : result pyobj :=
  _ ← load_global name; Ok (Global name).

Definition iter_parses (o : pyobj) : result (list (Doc * GoldParse)) :=
  Raise (TypeError "object is not iterable").

(** The inner loop [for doc, gold in parses], left by [break] once the
    sample has [limit] documents. *)
Fixpoint _get_sample_parses `{Float F} (n_actions limit : nat)
  (parses : list (Doc * GoldParse)) (acc : list Doc * list (Floats2d F))
  : list Doc * list (Floats2d F) :=
  match parses with
  | [] => acc
  | (d, _) :: rest =>
      let doc_sample := acc.1 ++ [d] in
      let output_sample := acc.2 ++ [alloc2f (len d) n_actions] in
      if bool_decide (1 ≤ limit) && bool_decide (limit ≤ length doc_sample)
      then (doc_sample, output_sample)
      else _get_sample_parses n_actions limit rest (doc_sample, output_sample)
  end.

Definition _get_sample `{Float F} (n_actions : nat) (examples : list Example)
  (limit : nat) : result (list Doc * list (Floats2d F)) :=
  for_each
    (λ acc example,
       parses ← load_name "parses" ≫= iter_parses;
       Ok (_get_sample_parses n_actions limit parses acc))
    ([], []) examples.

(** ** [begin_training] *)

Record SimpleNER : Type := mkSimpleNER {
  model : Model;
  cfg : gmap string string
}.

(** [get_examples] is a callable or the examples themselves. *)
Inductive provider : Type :=
  | Callable (f : unit → list Example)
  | Fixed (gold_tuples : list Example).

Definition call_provider (p : provider) : list Example :=
  match p with
  | Callable f => f tt
  | Fixed gold_tuples => gold_tuples
  end.

(** [node.has_dim(d)]: [True], [False], or [None] for a dimension that is
    declared and not yet set. *)
Definition has_dim (n : Node) (d : string) : option bool :=
  match dims n !! d with
  | None => Some false
  | Some (Some _) => Some true
  | Some None => None
  end.

Definition set_dim (n : Node) (d : string) (v : nat) : result Node :=
  match dims n !! d with
  | None => Raise (KeyError d)
  | Some (Some old) =>
      if bool_decide (old = v) then Ok (set_dims n (<[d := Some v]> (dims n)))
      else Raise (ValueError "dimension already set")
  | Some None => Ok (set_dims n (<[d := Some v]> (dims n)))
  end.

(** The fallback loop over [model.walk()] when no sample could be built. *)
Definition set_mish_dims (n_actions : nat) (walk : list Node) : result (list Node) :=
  comprehension
    (λ node,
       match has_dim node "nO" with
       | None =>
           if bool_decide (name node = "mish") then set_dim node "nO" n_actions
           else Ok node
       | Some _ => Ok node
       end) walk.

Definition with_model (self : SimpleNER) (m : Model) : SimpleNER :=
  {| model := m; cfg := cfg self |}.

(** The [pipeline] and [sgd] arguments only reach [init_multitask_objectives],
    whose body is [pass], and the return value; [link_vectors_to_models] acts
    on the vocabulary alone.  The state returned with an exception is the one
    the pipe is left in. *)
Definition begin_training `{Thinc F}
  (self : SimpleNER) (get_examples : provider) (kwargs : gmap string string)
  : SimpleNER * result unit :=
  let self := {| model := model self; cfg := kwargs ∪ cfg self |} in
  match _get_labels (call_provider get_examples) with
  | Raise e => (self, Raise e)
  | Ok _ =>
  match _get_labels (call_provider get_examples) with
  | Raise e => (self, Raise e)
  | Ok discovered =>
  let '(m1, n_actions) := _set_labels (model self) discovered in
  let self := with_model self m1 in
  match _get_sample (F := F) n_actions (call_provider get_examples) 10 with
  | Raise e => (self, Raise e)
  | Ok (doc_sample, output_sample) =>
      match doc_sample with
      | _ :: _ =>
          match initialize m1 (Some (doc_sample, output_sample)) with
          | Ok m2 => (with_model self m2, Ok tt)
          | Raise e => (self, Raise e)
          end
      | [] =>
          match set_mish_dims n_actions (nodes m1) with
          | Raise e => (self, Raise e)
          | Ok walk =>
              let m2 := {| nodes := walk; refs := refs m1 |} in
              match initialize m2 None with
              | Ok m3 => (with_model self m3, Ok tt)
              | Raise e => (with_model self m2, Raise e)
              end
          end
      end
  end end end.

(** ** Notions used to state the properties *)

(** The labels a registry value holds; [None] holds none. *)
Definition registered (v : attr) : list string :=
  match v with
  | ANone => []
  | ALabels ls => ls
  end.

Fixpoint chars (s : string) : list ascii :=
  match s with
  | EmptyString => []
  | String c rest => c :: chars rest
  end.

(** A tag of a training corpus is ["O"], ["-"] or has a hyphen before its label. *)
Definition well_formed_tag (tag : string) : Prop :=
  tag = "O" ∨ "-"%char ∈ chars tag.

Definition well_formed_corpus (corpus : list Example) : Prop :=
  Forall (λ eg, Forall well_formed_tag (entities (token_annotation eg))) corpus.

(** [tag] carries the entity label [label]: it is neither ["O"] nor ["-"],
    and [label] is what follows its first hyphen. *)
Definition tag_label (tag label : string) : Prop :=
  tag ≠ "O" ∧ tag ≠ "-" ∧
  ∃ prefix, ("-"%char ∉ chars prefix) ∧ tag = prefix +:+ "-" +:+ label.

(** [label] occurs in the corpus. *)
Definition corpus_label (corpus : list Example) (label : string) : Prop :=
  ∃ eg tag, eg ∈ corpus ∧ tag ∈ entities (token_annotation eg) ∧ tag_label tag label.

(** Spans that lie inside a document of [n] tokens and are not empty. *)
Definition spans_in_bounds (n : nat) (spans : list Span) : Prop :=
  ∀ sp, sp ∈ spans → span_start sp < span_end sp ∧ span_end sp ≤ n.

(** No two spans of the list share a token. *)
Definition non_overlapping (spans : list Span) : Prop :=
  ∀ i j a b, spans !! i = Some a → spans !! j = Some b → i ≠ j →
    span_end a ≤ span_start b ∨ span_end b ≤ span_start a.

(** The open span the decoder must hold when it reaches token [i]: the span
    that started before [i] and covers it, if any. *)
Definition open_at (spans : list Span) (i : nat) (open : option (nat * string)) : Prop :=
  ∀ s l, open = Some (s, l) ↔
    ∃ sp, sp ∈ spans ∧ span_start sp = s ∧ span_label sp = l ∧
          s < i ∧ i < span_end sp.

(** ** Concrete inputs on which the definitions are run *)

#[global] Instance Float_Z : Float Z :=
  {| f0 := 0%Z; fadd := Z.add; fltb := Z.ltb |}.

(** An instance over [Z] shaped like thinc's loss: the gradient is the
    difference between the scores and the one-hot gold rows, the loss is the
    sum of the squared differences; [initialize] leaves the model as it is. *)
Definition one_hot (n k : nat) : list Z :=
  (λ j, if bool_decide (j = k) then 1%Z else 0%Z) <$> seq 0 n.

Definition index_of (names : list string) (x : string) : result nat :=
  match list_find (x =.) names with
  | Some (i, _) => Ok i
  | None => Raise (KeyError x)
  end.

Definition squared_difference_loss (names : list string) (guesses : Floats2d Z)
  (truths : list string) : result (Floats2d Z * Z) :=
  if bool_decide (length (rows guesses) = length truths) then
    targets ← comprehension (index_of names) truths;
    let d := zip_with (λ row k, zip_with Z.sub row (one_hot (ncols guesses) k))
                      (rows guesses) targets in
    Ok (mkFloats2d (ncols guesses) d,
        foldr Z.add 0%Z ((λ row, foldr Z.add 0%Z ((λ x, x * x)%Z <$> row)) <$> d))
  else Raise (ValueError "shape mismatch").

#[global] Instance thinc_Z : Thinc Z := {|
  CategoricalCrossentropy := squared_difference_loss;
  initialize := λ m _, Ok m
|}.

Definition biluo_node (v : attr) : Node :=
  mkNode "biluo" {[ "labels" := v ]} {[ "nO" := None ]}.

(** A model whose single node is the ["biluo"] node holding registry [v]. *)
Definition model_of (v : attr) : Model :=
  mkModel [biluo_node v] {[ "biluo" := 0 ]}.

(** An example over the given tags, one token per tag. *)
Definition example_of (tags : list string) : Example :=
  mkExample (mkDoc tags []) (mkTokenAnnotation tags) (mkGoldParse tags).

(** ** [update] *)

(** The calls [update] makes outside this file: [Example.to_example_objects]
    of [spacy.gold], and thinc's [set_dropout_rate], [model.begin_update],
    whose second result is the backward pass, and [model.finish_update] with
    an optimizer of type [Opt]. *)
Class Training (F Opt : Type) `{Thinc F} : Type := {
  to_example_objects : list Example → result (list Example);
  set_dropout_rate : Model → F → Model;
  begin_update : Model → list Doc →
    result (list (Floats2d F) * (Model → list (Floats2d F) → result Model));
  finish_update : Model → Opt → result Model
}.

(** [self.name], given to the class by [@component("simple_ner", ...)]. *)
Definition pipe_name : string := "simple_ner".

(** [losses.setdefault(self.name, 0.0); losses[self.name] += loss] *)
Definition add_loss `{Float F} (losses : gmap string F) (loss : F) : gmap string F :=
  <[pipe_name := fadd (default f0 (losses !! pipe_name)) loss]> losses.

(** [update] returns the model, the documents and the [losses] dictionary as
    the call leaves them, with the loss or the exception raised. *)
Definition update `{Training F Opt}
  (m : Model) (examples : list Example) (set_annotations_flag : bool) (drop : F)
  (sgd : option Opt) (losses : option (gmap string F))
  : Model * list Doc * option (gmap string F) * result F :=
  match to_example_objects examples with
  | Raise e => (m, [], losses, Raise e)
  | Ok examples =>
  let docs := doc <$> examples in
  let m := set_dropout_rate m drop in
  match begin_update m docs with
  | Raise e => (m, docs, losses, Raise e)
  | Ok (scores, bp_scores) =>
  match get_loss m examples scores with
  | Raise e => (m, docs, losses, Raise e)
  | Ok (loss, d_scores) =>
  match bp_scores m d_scores with
  | Raise e => (m, docs, losses, Raise e)
  | Ok m =>
  let annotated :=
    if set_annotations_flag then set_annotations m docs scores else (docs, Ok tt) in
  match annotated.2 with
  | Raise e => (m, annotated.1, losses, Raise e)
  | Ok _ =>
  match (match sgd with Some optimizer => finish_update m optimizer | None => Ok m end) with
  | Raise e => (m, annotated.1, losses, Raise e)
  | Ok m => (m, annotated.1, (λ l, add_loss l loss) <$> losses, Ok loss)
  end end end end end end.

(** ** Further notions and inputs *)

#[global] Instance well_formed_tag_dec (tag : string) : Decision (well_formed_tag tag).
Proof. unfold well_formed_tag. apply _. Defined.

(** The registry after [add_label x] on a registry holding [ls]. *)
Definition with_label (ls : list string) (x : string) : list string :=
  if bool_decide (x ∈ ls) then ls else ls ++ [x].

(** A ["biluo"] node without labels at [i], with no such node before it. *)
Definition first_unset_biluo (walk : list Node) (i : nat) : Prop :=
  (∃ n, walk !! i = Some n ∧ name n = "biluo" ∧ is_None (attrs_get n "labels") = true) ∧
  ∀ j n', j < i → walk !! j = Some n' →
    name n' ≠ "biluo" ∨ is_None (attrs_get n' "labels") = false.

(** The node [set_mish_dims] leaves in the place of [node]. *)
Definition with_mish_dim (n_actions : nat) (node : Node) : Node :=
  if bool_decide (dims node !! "nO" = Some None) && bool_decide (name node = "mish")
  then set_dims node (<["nO" := Some n_actions]> (dims node))
  else node.

(** Training operations over [Z]: scores of zeros with five columns, a
    backward pass and an optimizer step that leave the model as it is. *)
#[global] Instance training_Z : Training Z unit := {|
  to_example_objects := Ok;
  set_dropout_rate := λ m _, m;
  begin_update := λ m docs, Ok ((λ d, alloc2f (len d) 5) <$> docs, λ m _, Ok m);
  finish_update := λ m _, Ok m
|}.

(** A model with a ["mish"] node whose output width is not set yet, before
    the ["biluo"] node holding registry [v]. *)
Definition mish_model_of (v : attr) : Model :=
  mkModel [mkNode "mish" ∅ {[ "nO" := None ]}; biluo_node v] {[ "biluo" := 1 ]}.

(** The tag names of a registry holding [ls], as [get_tag_names] lists them. *)
Definition tag_names (ls : list string) : list string :=
  ((λ label, "B-" +:+ label) <$> ls) ++ ((λ label, "I-" +:+ label) <$> ls) ++
  ((λ label, "L-" +:+ label) <$> ls) ++ ((λ label, "U-" +:+ label) <$> ls) ++
  ["O"].

(** * Properties *)

(** ** The label registry *)

Lemma get_ref_Ok (m : Model) (r : string) (i : nat) (n : Node) :
  get_ref m r = Ok (i, n) ↔ refs m !! r = Some i ∧ nodes m !! i = Some n.
Proof.
  unfold get_ref. destruct (refs m !! r) as [k|]; [|intuition congruence].
  destruct (nodes m !! k) eqn:Hk; split.
  - by intros [= <- <-].
  - intros [[= <-] Hn]. rewrite Hk in Hn. by injection Hn as <-.
  - done.
  - intros [[= <-] Hn]. congruence.
Qed.

Lemma labels_Ok (m : Model) (v : attr) :
  labels m = Ok v ↔
  ∃ i n, get_ref m "biluo" = Ok (i, n) ∧ attrs n !! "labels" = Some v.
Proof.
  unfold labels, getitem_attrs. destruct (get_ref m "biluo") as [[i n]|e]; simpl.
  - split.
    + destruct (attrs n !! "labels") eqn:Hv; [|done]. intros [= <-]. eauto.
    + intros (i' & n' & [= <- <-] & ->). done.
  - split; [done|]. by intros (i' & n' & ? & _).
Qed.

Lemma labels_setitem (m : Model) (i : nat) (n : Node) (v : attr) :
  get_ref m "biluo" = Ok (i, n) →
  labels (setitem_attrs m i "labels" v) = Ok v.
Proof.
  intros [Hr Hn]%get_ref_Ok. apply labels_Ok.
  exists i, (set_attrs n (<["labels" := v]> (attrs n))). split.
  - apply get_ref_Ok. unfold setitem_attrs. rewrite Hn. simpl. split; [done|].
    apply list_lookup_insert_eq. by eapply lookup_lt_Some.
  - simpl. apply lookup_insert_eq.
Qed.

Lemma get_tag_names_labels (m : Model) (ls : list string) :
  labels m = Ok (ALabels ls) →
  get_tag_names m =
    Ok (((λ label, "B-" +:+ label) <$> ls) ++ ((λ label, "I-" +:+ label) <$> ls) ++
        ((λ label, "L-" +:+ label) <$> ls) ++ ((λ label, "U-" +:+ label) <$> ls) ++
        ["O"]).
Proof. intros Hl. unfold get_tag_names. by rewrite Hl. Qed.

(** C2: on a registry holding the label list [ls], [get_tag_names] is the
    [B-] tags, the [I-] tags, the [L-] tags and the [U-] tags of [ls], each in
    label order, followed by ["O"]; it has [4 * length ls + 1] names, the
    action count [_set_labels] returns for [ls] on any model. *)
Theorem get_tag_names_layout (m m' : Model) (ls : list string) :
  labels m = Ok (ALabels ls) →
  ∃ names,
    get_tag_names m = Ok names ∧
    names = ((λ label, "B-" +:+ label) <$> ls) ++ ((λ label, "I-" +:+ label) <$> ls) ++
            ((λ label, "L-" +:+ label) <$> ls) ++ ((λ label, "U-" +:+ label) <$> ls) ++
            ["O"] ∧
    length names = 4 * length ls + 1 ∧
    (_set_labels m' ls).2 = length names.
Proof.
  intros Hl. eexists. split; [by apply get_tag_names_labels|]. split; [done|].
  rewrite !length_app, !length_fmap. simpl. lia.
Qed.

Lemma get_tag_names_layout_witness :
  labels (model_of (ALabels ["GPE"; "PERSON"])) = Ok (ALabels ["GPE"; "PERSON"]) ∧
  ∃ names,
    get_tag_names (model_of (ALabels ["GPE"; "PERSON"])) = Ok names ∧
    names = ["B-GPE"; "B-PERSON"; "I-GPE"; "I-PERSON";
             "L-GPE"; "L-PERSON"; "U-GPE"; "U-PERSON"; "O"] ∧
    length names = 9 ∧
    (_set_labels (model_of ANone) ["GPE"; "PERSON"]).2 = length names.
Proof.
  split; [reflexivity|].
  apply (get_tag_names_layout (model_of (ALabels ["GPE"; "PERSON"]))
           (model_of ANone) ["GPE"; "PERSON"]).
  reflexivity.
Defined.

(** C4: [add_label x] succeeds on every registry state; a second call leaves
    the model, and so the tag names and their action indices, as the first
    call left it; the registry afterwards is the old list with [x] appended
    when [x] was absent and the old list otherwise, in which case the model
    is untouched; every label keeps its position. *)
Theorem add_label_idempotent (m : Model) (x : string) (v : attr) :
  labels m = Ok v →
  ∃ m1,
    add_label m x = Ok m1 ∧
    add_label m1 x = Ok m1 ∧
    (add_label m1 x ≫= get_tag_names) = get_tag_names m1 ∧
    labels m1 = Ok (ALabels (if bool_decide (x ∈ registered v)
                             then registered v else registered v ++ [x])) ∧
    (x ∈ registered v → m1 = m) ∧
    (∀ i l, registered v !! i = Some l →
       ∃ ls1, labels m1 = Ok (ALabels ls1) ∧ ls1 !! i = Some l).
Proof.
  intros Hl. pose proof Hl as (i & n & Href & Hv)%labels_Ok.
  assert (∃ m1, add_label m x = Ok m1 ∧
            labels m1 = Ok (ALabels (if bool_decide (x ∈ registered v)
                                     then registered v else registered v ++ [x])) ∧
            (x ∈ registered v → m1 = m)) as (m1 & Hadd & Hl1 & Hnoop).
  { unfold add_label, getitem_attrs. rewrite Href. simpl. rewrite Hv. simpl.
    destruct v as [|ls]; simpl.
    - eexists. split; [done|]. split; [by eapply labels_setitem|].
      by intros ?%elem_of_nil.
    - case_bool_decide.
      + eexists. split; [done|]. split; [|done]. apply labels_Ok; eauto.
      + eexists. split; [done|]. split; [by eapply labels_setitem|done]. }
  assert (add_label m1 x = Ok m1) as Hagain.
  { pose proof Hl1 as (i1 & n1 & Href1 & Hv1)%labels_Ok.
    unfold add_label, getitem_attrs. rewrite Href1. simpl. rewrite Hv1. simpl.
    rewrite bool_decide_true; [done|].
    case_bool_decide; [done|]. apply elem_of_app. right. by apply list_elem_of_singleton. }
  exists m1. split; [done|]. split; [done|]. split; [by rewrite Hagain|].
  split; [done|]. split; [done|].
  intros k l Hk. eexists. split; [done|].
  case_bool_decide; [done|]. by apply lookup_app_l_Some.
Qed.

Lemma add_label_idempotent_witness :
  labels (model_of (ALabels ["A"; "B"])) = Ok (ALabels ["A"; "B"]) ∧
  ∃ m1,
    add_label (model_of (ALabels ["A"; "B"])) "C" = Ok m1 ∧
    add_label m1 "C" = Ok m1 ∧
    (add_label m1 "C" ≫= get_tag_names) = get_tag_names m1 ∧
    labels m1 = Ok (ALabels ["A"; "B"; "C"]) ∧
    ("C" ∈ ["A"; "B"] → m1 = model_of (ALabels ["A"; "B"])) ∧
    (∀ i l, ["A"; "B"] !! i = Some l →
       ∃ ls1, labels m1 = Ok (ALabels ls1) ∧ ls1 !! i = Some l).
Proof.
  split; [reflexivity|].
  apply (add_label_idempotent (model_of (ALabels ["A"; "B"])) "C" (ALabels ["A"; "B"])).
  reflexivity.
Defined.

(** C10: on a registry that is [None], [add_label x] stores the list [[x]];
    and after any successful [add_label] the registry is a list that is not
    empty. *)
Theorem add_label_uninitialized (m : Model) (x : string) :
  (labels m = Ok ANone →
     ∃ m1, add_label m x = Ok m1 ∧ labels m1 = Ok (ALabels [x])) ∧
  (∀ m1, add_label m x = Ok m1 →
     ∃ ls, labels m1 = Ok (ALabels ls) ∧ ls ≠ []).
Proof.
  split.
  - intros (i & n & Href & Hv)%labels_Ok.
    unfold add_label, getitem_attrs. rewrite Href. simpl. rewrite Hv. simpl.
    eexists. split; [done|]. by eapply labels_setitem.
  - intros m1. unfold add_label, getitem_attrs.
    destruct (get_ref m "biluo") as [[i n]|] eqn:Href; simpl; [|done].
    destruct (attrs n !! "labels") as [v|] eqn:Hv; simpl; [|done].
    destruct v as [|ls].
    + intros [= <-]. eexists. split; [by eapply labels_setitem|done].
    + case_bool_decide as Hx.
      * intros [= <-]. exists ls. split; [apply labels_Ok; eauto|].
        intros ->. by apply elem_of_nil in Hx.
      * intros [= <-]. eexists. split; [by eapply labels_setitem|].
        by destruct ls.
Qed.

Lemma add_label_uninitialized_witness :
  (labels (model_of ANone) = Ok ANone →
     ∃ m1, add_label (model_of ANone) "PERSON" = Ok m1 ∧
           labels m1 = Ok (ALabels ["PERSON"])) ∧
  (∀ m1, add_label (model_of ANone) "PERSON" = Ok m1 →
     ∃ ls, labels m1 = Ok (ALabels ls) ∧ ls ≠ []).
Proof. apply (add_label_uninitialized (model_of ANone) "PERSON"). Defined.

(** ** Label discovery *)

Lemma app_String (c : ascii) (a b : string) : String c a +:+ b = String c (a +:+ b).
Proof. reflexivity. Qed.

Lemma split_hyphen_Some (s a b : string) :
  split_hyphen s = Some (a, b) ↔ ("-"%char ∉ chars a) ∧ s = a +:+ "-" +:+ b.
Proof.
  revert a. induction s as [|c s IH]; intros a; simpl.
  - split; [done|]. intros [_ Hs]. by destruct a.
  - case_bool_decide as Hc.
    + subst c. split.
      * intros [= <- <-]. split; [apply not_elem_of_nil|done].
      * intros [Ha Hs]. destruct a as [|c' a]; [by injection Hs as ->|].
        rewrite app_String in Hs. injection Hs as <- _.
        exfalso. apply Ha. simpl. apply list_elem_of_here.
    + split.
      * destruct (split_hyphen s) as [[a' b']|] eqn:Hs; [|done].
        intros [= <- <-]. destruct (proj1 (IH a') eq_refl) as [Ha ->]. split; [|done].
        simpl. intros [?|?]%elem_of_cons; [by apply Hc|by apply Ha].
      * intros [Ha Hs]. destruct a as [|c' a].
        { injection Hs as -> _. done. }
        rewrite app_String in Hs. injection Hs as <- ->.
        assert (split_hyphen (a +:+ "-" +:+ b) = Some (a, b)) as ->; [|done].
        apply IH. split; [|done]. intros Hin. apply Ha. simpl. by apply list_elem_of_further.
Qed.

Lemma split_hyphen_None (s : string) :
  split_hyphen s = None ↔ "-"%char ∉ chars s.
Proof.
  induction s as [|c s IH]; simpl.
  - split; [intros _; apply not_elem_of_nil|done].
  - case_bool_decide as Hc.
    + subst c. split; [done|]. intros []. apply list_elem_of_here.
    + destruct (split_hyphen s) as [[a b]|] eqn:Hs.
      * split; [done|]. intros Hn. exfalso.
        assert (Some (a, b) = None) as Heq; [|done].
        apply IH. intros Hin. apply Hn. by apply list_elem_of_further.
      * split; [|done]. intros _ [?|Hin]%elem_of_cons; [by apply Hc|].
        by apply (proj1 IH eq_refl).
Qed.

Lemma _get_labels_tag_spec (labels : gset string) (tag : string) :
  well_formed_tag tag →
  ∃ labels', _get_labels_tag labels tag = Ok labels' ∧
             ∀ l, l ∈ labels' ↔ l ∈ labels ∨ tag_label tag l.
Proof.
  intros Hwf. unfold _get_labels_tag.
  destruct (bool_decide (tag ≠ "O") && bool_decide (tag ≠ "-")) eqn:Hguard.
  - apply andb_true_iff in Hguard as [HO%bool_decide_eq_true Hm%bool_decide_eq_true].
    destruct Hwf as [?|Hh]; [done|].
    destruct (split_hyphen tag) as [[a b]|] eqn:Hs.
    + unfold split1. rewrite Hs. simpl. eexists. split; [done|].
      intros l. rewrite elem_of_union, elem_of_singleton.
      split.
      * intros [->|?]; [|by left]. right. split; [done|]. split; [done|].
        exists a. by apply split_hyphen_Some.
      * intros [?|(_ & _ & p & Hp)]; [by right|]. left.
        apply split_hyphen_Some in Hp. congruence.
    + apply split_hyphen_None in Hs. done.
  - exists labels. split; [done|]. intros l. split; [by left|].
    intros [?|(HO & Hm & _)]; [done|].
    apply andb_false_iff in Hguard as [H%bool_decide_eq_false|H%bool_decide_eq_false];
      by destruct H.
Qed.

(** A loop that only ever adds to a set of labels computes a union. *)
Lemma for_each_union {A} (f : gset string → A → result (gset string))
    (P : A → Prop) (lab : A → string → Prop) (xs : list A) (acc : gset string) :
  (∀ s x, P x → ∃ s', f s x = Ok s' ∧ ∀ l, l ∈ s' ↔ l ∈ s ∨ lab x l) →
  Forall P xs →
  ∃ s', for_each f acc xs = Ok s' ∧
        ∀ l, l ∈ s' ↔ l ∈ acc ∨ ∃ x, x ∈ xs ∧ lab x l.
Proof.
  intros Hf Hxs. revert acc. induction Hxs as [|x xs Hx _ IH]; intros acc; simpl.
  - exists acc. split; [done|]. intros l. split; [by left|].
    intros [?|(x & []%elem_of_nil & _)]. done.
  - destruct (Hf acc x Hx) as (s1 & -> & Hs1). simpl.
    destruct (IH s1) as (s2 & -> & Hs2). exists s2. split; [done|].
    intros l. rewrite Hs2, Hs1. split.
    + intros [[?|?]|(y & ? & ?)]; [by left|right..].
      * exists x. split; [apply list_elem_of_here|done].
      * exists y. split; [by apply list_elem_of_further|done].
    + intros [?|(y & [->|?]%elem_of_cons & ?)]; [by left; left|by left; right|].
      right. by exists y.
Qed.

Lemma _get_labels_set (corpus : list Example) :
  well_formed_corpus corpus →
  ∃ labels : gset string,
    _get_labels corpus = Ok (sorted (elements labels)) ∧
    ∀ l, l ∈ labels ↔ corpus_label corpus l.
Proof.
  intros Hwf. unfold _get_labels.
  destruct (for_each_union
    (λ labels eg, for_each _get_labels_tag labels (entities (token_annotation eg)))
    (λ eg, Forall well_formed_tag (entities (token_annotation eg)))
    (λ eg l, ∃ tag, tag ∈ entities (token_annotation eg) ∧ tag_label tag l)
    corpus ∅) as (s & -> & Hs).
  - intros s eg Heg. by apply (for_each_union _ well_formed_tag tag_label);
      [apply _get_labels_tag_spec|].
  - done.
  - exists s. split; [done|]. intros l. rewrite Hs. unfold corpus_label. split.
    + intros [[]%not_elem_of_empty|(eg & ? & tag & ? & ?)]. eauto.
    + intros (eg & tag & ? & ? & ?). right. eauto.
Qed.

Lemma sorted_elements_unique (s1 s2 : gset string) :
  (∀ l, l ∈ s1 ↔ l ∈ s2) → sorted (elements s1) = sorted (elements s2).
Proof.
  intros Heq. apply (Sorted_unique String.le).
  - apply Sorted_merge_sort, _.
  - apply Sorted_merge_sort, _.
  - unfold sorted. rewrite !merge_sort_Permutation.
    apply NoDup_Permutation; [apply NoDup_elements..|].
    intros l. by rewrite !elem_of_elements.
Qed.

(** C3: on a corpus of well-formed tags [_get_labels] returns a list that
    holds exactly the entity labels occurring in the corpus, without
    duplicates and in lexicographic order; any other well-formed corpus with
    the same set of labels gives the same list. *)
Theorem get_labels_sorted_set (corpus : list Example) :
  well_formed_corpus corpus →
  ∃ ls,
    _get_labels corpus = Ok ls ∧
    (∀ l, l ∈ ls ↔ corpus_label corpus l) ∧
    NoDup ls ∧
    StronglySorted String.le ls ∧
    (∀ corpus', well_formed_corpus corpus' →
       (∀ l, corpus_label corpus' l ↔ corpus_label corpus l) →
       _get_labels corpus' = Ok ls).
Proof.
  intros Hwf. destruct (_get_labels_set _ Hwf) as (s & Hget & Hs).
  exists (sorted (elements s)). split; [done|].
  assert (sorted (elements s) ≡ₚ elements s) as Hperm
    by apply merge_sort_Permutation.
  split; [|split; [|split]].
  - intros l. by rewrite Hperm, elem_of_elements.
  - rewrite Hperm. apply NoDup_elements.
  - apply StronglySorted_merge_sort; apply _.
  - intros corpus' Hwf' Hsame.
    destruct (_get_labels_set _ Hwf') as (s' & Hget' & Hs').
    rewrite Hget'. f_equal. apply sorted_elements_unique.
    intros l. by rewrite Hs, Hs', Hsame.
Qed.

Lemma get_labels_sorted_set_witness :
  well_formed_corpus
    [example_of ["B-PER"; "L-PER"; "O"; "U-GPE"; "-"]; example_of ["U-ORG"; "U-GPE"]] ∧
  ∃ ls,
    _get_labels
      [example_of ["B-PER"; "L-PER"; "O"; "U-GPE"; "-"]; example_of ["U-ORG"; "U-GPE"]]
      = Ok ls ∧
    (∀ l, l ∈ ls ↔
       corpus_label
         [example_of ["B-PER"; "L-PER"; "O"; "U-GPE"; "-"]; example_of ["U-ORG"; "U-GPE"]]
         l) ∧
    NoDup ls ∧
    StronglySorted String.le ls ∧
    (∀ corpus', well_formed_corpus corpus' →
       (∀ l, corpus_label corpus' l ↔
          corpus_label
            [example_of ["B-PER"; "L-PER"; "O"; "U-GPE"; "-"];
             example_of ["U-ORG"; "U-GPE"]] l) →
       _get_labels corpus' = Ok ls).
Proof.
  assert (well_formed_corpus
    [example_of ["B-PER"; "L-PER"; "O"; "U-GPE"; "-"]; example_of ["U-ORG"; "U-GPE"]])
    as Hwf.
  { unfold well_formed_corpus, well_formed_tag.
    apply (bool_decide_unpack _). vm_compute. exact I. }
  split; [exact Hwf|].
  exact (get_labels_sorted_set _ Hwf).
Defined.

Example _get_labels_example :
  _get_labels
    [example_of ["B-PER"; "L-PER"; "O"; "U-GPE"; "-"]; example_of ["U-ORG"; "U-GPE"]]
  = Ok ["GPE"; "ORG"; "PER"].
Proof. vm_compute. reflexivity. Qed.

Example _get_labels_malformed :
  _get_labels [example_of ["PERSON"]] = Raise (ValueError "not enough values to unpack").
Proof. vm_compute. reflexivity. Qed.

(** ** [set_annotations] *)

Lemma argmax_axis1_Ints1d `{Float F} (a : Floats2d F) (actions : Ints) :
  argmax_axis1 a = Ok actions → ∃ xs, actions = Ints1d xs.
Proof.
  unfold argmax_axis1. case_bool_decide; [done|].
  destruct (comprehension argmax_row (rows a)) as [xs|]; [|done].
  intros [= <-]. by exists xs.
Qed.

(** No document gets through: a document with a token stops at [actions[j, i]],
    a document without tokens at the unbound name [spans_from_biluo_tags]. *)
Lemma set_annotations_doc_raises `{Float F}
    (tag_names : list string) (scores : list (Floats2d F)) (i : nat) (d : Doc) :
  ∃ e, set_annotations_doc tag_names scores i d = Raise e.
Proof.
  unfold set_annotations_doc.
  destruct (getitem scores i) as [doc_scores|e]; simpl; [|by exists e].
  destruct (argmax_axis1 doc_scores) as [actions|e] eqn:Ha; simpl; [|by exists e].
  apply argmax_axis1_Ints1d in Ha as [xs ->].
  unfold len. destruct (tokens d) as [|t ts]; simpl; eauto.
Qed.

Lemma set_annotations_raises `{Float F}
    (m : Model) (docs : list Doc) (scores : list (Floats2d F)) :
  docs ≠ [] →
  (set_annotations m docs scores).1 = docs ∧
  ∃ e, (set_annotations m docs scores).2 = Raise e.
Proof.
  intros Hdocs. unfold set_annotations.
  destruct (get_tag_names m) as [tag_names|e]; simpl; [|eauto].
  destruct docs as [|d rest]; [done|]. simpl.
  destruct (set_annotations_doc_raises tag_names scores 0 d) as [e ->]. eauto.
Qed.

(** C1: on one document of one token, with a score row whose maximum is at
    action 3, [set_annotations] raises [IndexError] at [actions[j, i]] and the
    document keeps its entities; no tag is predicted. *)
Theorem set_annotations_one_token :
  set_annotations (model_of (ALabels ["PERSON"]))
    [mkDoc ["Ada"] []] [mkFloats2d 5 [[0; 0; 0; 7; 0]%Z]]
  = ([mkDoc ["Ada"] []], Raise (IndexError "too many indices for array")).
Proof. vm_compute. reflexivity. Qed.

Example argmax_axis1_example :
  argmax_axis1 (mkFloats2d 5 [[0; 0; 0; 7; 0]%Z; [4; 1; 4; 0; 2]%Z]) = Ok (Ints1d [3; 0]).
Proof. vm_compute. reflexivity. Qed.

Example set_annotations_no_token :
  set_annotations (model_of (ALabels ["PERSON"]))
    [mkDoc [] []] [mkFloats2d 5 ([] : list (list Z))]
  = ([mkDoc [] []], Raise (NameError "spans_from_biluo_tags")).
Proof. vm_compute. reflexivity. Qed.

(** ** [argmax] on integer scores: the first maximum of a row *)

Lemma argmax_from_spec (row : list Z) (best_i i : nat) (best : Z) :
  (argmax_from best_i best i row = best_i ∧ Forall (λ y, y ≤ best)%Z row) ∨
  (∃ j x, argmax_from best_i best i row = i + j ∧ row !! j = Some x ∧
          (best < x)%Z ∧ Forall (λ y, y ≤ x)%Z row ∧
          ∀ j' y, j' < j → row !! j' = Some y → (y < x)%Z).
Proof.
  revert best_i i best. induction row as [|x rest IH]; intros best_i i best; simpl.
  { left. by split. }
  destruct (Z.ltb_spec best x) as [Hlt|Hge].
  - destruct (IH i (S i) x) as [[-> Hall]|(j & x' & -> & Hj & Hx & Hall & Hfirst)].
    + right. exists 0, x. split_and!; [lia|done|lia| |intros j' y ?; lia].
      constructor; [lia|done].
    + right. exists (S j), x'. split_and!; [lia|done|lia| |].
      * constructor; [lia|done].
      * intros [|j'] y Hj' Hy; simpl in Hy; [injection Hy as ->; lia|].
        apply (Hfirst j'); [lia|done].
  - destruct (IH best_i (S i) best) as [[-> Hall]|(j & x' & -> & Hj & Hx & Hall & Hfirst)].
    + left. split; [done|]. by constructor.
    + right. exists (S j), x'. split_and!; [lia|done|lia| |].
      * constructor; [lia|done].
      * intros [|j'] y Hj' Hy; simpl in Hy; [injection Hy as ->; lia|].
        apply (Hfirst j'); [lia|done].
Qed.

(** [argmax] of a row is the lowest index that holds its maximum. *)
Lemma argmax_row_first_max (row : list Z) (k : nat) :
  argmax_row row = Ok k →
  ∃ x, row !! k = Some x ∧
       Forall (λ y, y ≤ x)%Z row ∧
       ∀ j y, j < k → row !! j = Some y → (y < x)%Z.
Proof.
  destruct row as [|x rest]; [done|]. simpl. intros [= <-].
  destruct (argmax_from_spec rest 0 1 x) as [[-> Hall]|(j & x' & -> & Hj & Hx & Hall & Hfirst)].
  - exists x. split; [done|]. split; [constructor; [lia|done]|]. intros j y ?; lia.
  - exists x'. split; [done|]. split; [constructor; [lia|done]|].
    intros [|j'] y Hj' Hy; simpl in Hy; [injection Hy as ->; lia|].
    apply (Hfirst j'); [lia|done].
Qed.

(** ** [_get_sample] *)

Lemma _get_sample_raises `{Float F} (n_actions limit : nat)
    (example : Example) (examples : list Example) :
  _get_sample (F := F) n_actions (example :: examples) limit
  = Raise (NameError "parses").
Proof. reflexivity. Qed.

Lemma _get_sample_empty `{Float F} (n_actions limit : nat) :
  _get_sample (F := F) n_actions [] limit = Ok ([], []).
Proof. reflexivity. Qed.

(** C7: on a single example [_get_sample] raises [NameError]: the name
    [parses] of its inner loop is bound nowhere, and no sample is returned. *)
Theorem get_sample_one_example :
  _get_sample (F := Z) 5 [example_of ["U-PERSON"; "O"]] 10
  = Raise (NameError "parses").
Proof. vm_compute. reflexivity. Qed.

(** ** [get_loss] *)

Lemma zip_take {A B} (xs : list A) (ys : list B) :
  zip (take (length ys) xs) (take (length xs) ys) = zip xs ys.
Proof.
  revert ys. induction xs as [|x xs IH]; intros [|y ys]; simpl; [done..|].
  by rewrite IH.
Qed.

(** The gradients collected by the loop are one more per pair. *)
Lemma get_loss_loop_length `{Thinc F} (loss_func : Floats2d F → list string → result (Floats2d F * F))
    (pairs : list (Example * Floats2d F)) (loss loss' : F)
    (d_scores d_scores' : list (Floats2d F)) :
  for_each
    (λ '(loss, d_scores) '(eg, doc_scores),
       '(d_doc_scores, doc_loss) ← loss_func doc_scores (ner (gold eg));
       Ok (fadd loss doc_loss, d_scores ++ [d_doc_scores]))
    (loss, d_scores) pairs = Ok (loss', d_scores') →
  length d_scores' = length d_scores + length pairs.
Proof.
  revert loss d_scores. induction pairs as [|[eg doc_scores] pairs IH];
    intros loss d_scores; simpl.
  - intros [= <- <-]. lia.
  - destruct (loss_func doc_scores (ner (gold eg))) as [[d l]|]; simpl; [|done].
    intros Hrest%IH. rewrite length_app in Hrest. simpl in Hrest. lia.
Qed.

(** C6 (amended): [get_loss] pairs examples and score matrices with [zip]:
    it gives the same result as on both lists cut to the shorter length, and
    when it returns it returns one gradient per such pair. *)
Theorem get_loss_truncates `{Thinc F}
    (m : Model) (examples : list Example) (scores : list (Floats2d F)) :
  get_loss m examples scores
    = get_loss m (take (length scores) examples) (take (length examples) scores) ∧
  (∀ loss d_scores, get_loss m examples scores = Ok (loss, d_scores) →
     length d_scores = length examples `min` length scores).
Proof.
  split.
  - unfold get_loss. by rewrite zip_take.
  - intros loss d_scores. unfold get_loss.
    destruct (get_tag_names m) as [names|]; simpl; [|done].
    intros Hloop%get_loss_loop_length. rewrite Hloop. simpl.
    by rewrite length_zip.
Qed.

Lemma get_loss_truncates_witness :
  get_loss (model_of (ALabels ["PERSON"]))
    [example_of ["U-PERSON"]; example_of ["O"]] [mkFloats2d 5 [[0; 0; 0; 7; 0]%Z]]
  = get_loss (model_of (ALabels ["PERSON"]))
      [example_of ["U-PERSON"]] [mkFloats2d 5 [[0; 0; 0; 7; 0]%Z]] ∧
  (∀ loss d_scores,
     get_loss (model_of (ALabels ["PERSON"]))
       [example_of ["U-PERSON"]; example_of ["O"]] [mkFloats2d 5 [[0; 0; 0; 7; 0]%Z]]
     = Ok (loss, d_scores) →
     length d_scores = 1).
Proof.
  apply (get_loss_truncates (model_of (ALabels ["PERSON"]))
           [example_of ["U-PERSON"]; example_of ["O"]]
           [mkFloats2d 5 [[0; 0; 0; 7; 0]%Z]]).
Defined.

(** C6, as stated, fails: with two examples and one score matrix [get_loss]
    returns, with the loss and the gradient of the first pair only. *)
Lemma get_loss_length_mismatch_returns :
  length [example_of ["U-PERSON"]; example_of ["O"]]
    ≠ length [mkFloats2d 5 [[0; 0; 0; 7; 0]%Z]] ∧
  get_loss (model_of (ALabels ["PERSON"]))
    [example_of ["U-PERSON"]; example_of ["O"]] [mkFloats2d 5 [[0; 0; 0; 7; 0]%Z]]
  = Ok (36%Z, [mkFloats2d 5 [[0; 0; 0; 6; 0]%Z]]).
Proof. split; [simpl; lia|vm_compute; reflexivity]. Qed.

(** The loss returned is the sum of the losses of the documents, added up
    from zero in document order, and the gradients are those of the
    documents, in order. *)
Lemma get_loss_loop_sum `{Thinc F}
    (loss_func : Floats2d F → list string → result (Floats2d F * F))
    (pairs : list (Example * Floats2d F)) (outs : list (Floats2d F * F))
    (loss : F) (d_scores : list (Floats2d F)) :
  Forall2 (λ '(eg, doc_scores) out, loss_func doc_scores (ner (gold eg)) = Ok out)
          pairs outs →
  for_each
    (λ '(loss, d_scores) '(eg, doc_scores),
       '(d_doc_scores, doc_loss) ← loss_func doc_scores (ner (gold eg));
       Ok (fadd loss doc_loss, d_scores ++ [d_doc_scores]))
    (loss, d_scores) pairs
  = Ok (foldl fadd loss outs.*2, d_scores ++ outs.*1).
Proof.
  intros Hall. revert loss d_scores.
  induction Hall as [|[eg doc_scores] [d l] pairs outs Hout _ IH];
    intros loss d_scores; simpl.
  - by rewrite app_nil_r.
  - rewrite Hout. simpl. rewrite IH. by rewrite <-app_assoc.
Qed.

Lemma get_loss_sum `{Thinc F} (m : Model) (names : list string)
    (examples : list Example) (scores : list (Floats2d F))
    (outs : list (Floats2d F * F)) :
  get_tag_names m = Ok names →
  Forall2 (λ '(eg, doc_scores) out,
             CategoricalCrossentropy names doc_scores (ner (gold eg)) = Ok out)
          (zip examples scores) outs →
  get_loss m examples scores = Ok (foldl fadd f0 outs.*2, outs.*1).
Proof.
  intros Hn Hall. unfold get_loss. rewrite Hn. simpl.
  by rewrite (get_loss_loop_sum _ _ outs).
Qed.

(** ** [_set_labels] and [begin_training] *)

Lemma _set_labels_walk_keeps (walk : list Node) (ls : list string) (i : nat) (n : Node) :
  walk !! i = Some n →
  is_None (attrs_get n "labels") = false →
  _set_labels_walk walk ls !! i = Some n.
Proof.
  revert i. induction walk as [|node rest IH]; intros i Hi Hset; [done|]. simpl.
  destruct i as [|i]; simpl in Hi.
  - injection Hi as ->. rewrite Hset, andb_false_r. done.
  - destruct (bool_decide (name node = "biluo") && is_None (attrs_get node "labels"));
      simpl; [done|]. by apply IH.
Qed.

Lemma _set_labels_keeps_registry (m : Model) (ls discovered : list string) :
  labels m = Ok (ALabels ls) →
  labels (_set_labels m discovered).1 = Ok (ALabels ls).
Proof.
  intros (i & n & [Hr Hn]%get_ref_Ok & Hv)%labels_Ok.
  apply labels_Ok. exists i, n. split; [|done].
  apply get_ref_Ok. simpl. split; [done|].
  apply _set_labels_walk_keeps; [done|]. unfold attrs_get. by rewrite Hv.
Qed.

(** On a model whose ["biluo"] reference is the first node of the walk that
    is named ["biluo"] and has no labels yet, [_set_labels] stores the sorted
    labels, and the action count it returns is the number of tag names. *)
Lemma _set_labels_walk_first (walk : list Node) (ls : list string) (i : nat) (n : Node) :
  walk !! i = Some n →
  name n = "biluo" →
  is_None (attrs_get n "labels") = true →
  (∀ j n', j < i → walk !! j = Some n' →
     name n' ≠ "biluo" ∨ is_None (attrs_get n' "labels") = false) →
  _set_labels_walk walk ls !! i
    = Some (set_attrs n (<["labels" := ALabels (sorted ls)]> (attrs n))).
Proof.
  revert i. induction walk as [|node rest IH]; intros i Hi Hname Hnone Hfirst; [done|].
  simpl. destruct i as [|i]; simpl in Hi.
  - injection Hi as ->. rewrite Hnone, bool_decide_true by done. done.
  - destruct (Hfirst 0 node) as [Hne|Hset]; [lia|done|..].
    + rewrite bool_decide_false by done. simpl. apply IH; [done..|].
      intros j n' Hj Hn'. apply (Hfirst (S j)); [lia|done].
    + rewrite Hset, andb_false_r. simpl. apply IH; [done..|].
      intros j n' Hj Hn'. apply (Hfirst (S j)); [lia|done].
Qed.

Lemma _set_labels_fresh (m : Model) (ls : list string) (i : nat) (n : Node) :
  get_ref m "biluo" = Ok (i, n) →
  name n = "biluo" →
  is_None (attrs_get n "labels") = true →
  (∀ j n', j < i → nodes m !! j = Some n' →
     name n' ≠ "biluo" ∨ is_None (attrs_get n' "labels") = false) →
  labels (_set_labels m ls).1 = Ok (ALabels (sorted ls)) ∧
  (length <$> get_tag_names (_set_labels m ls).1) = Ok (_set_labels m ls).2.
Proof.
  intros [Hr Hn]%get_ref_Ok Hname Hnone Hfirst.
  assert (labels (_set_labels m ls).1 = Ok (ALabels (sorted ls))) as Hl.
  { apply labels_Ok. eexists i, _. split.
    - apply get_ref_Ok. simpl. split; [done|]. by apply _set_labels_walk_first.
    - simpl. apply lookup_insert_eq. }
  split; [done|]. rewrite (get_tag_names_labels _ _ Hl). simpl. f_equal.
  rewrite !length_app, !length_fmap. unfold sorted.
  rewrite (Permutation_length (merge_sort_Permutation String.le ls)). simpl. lia.
Qed.

Lemma set_mish_dims_attrs (n_actions : nat) (walk walk' : list Node) :
  set_mish_dims n_actions walk = Ok walk' →
  ∀ i n, walk !! i = Some n → ∃ n', walk' !! i = Some n' ∧ attrs n' = attrs n.
Proof.
  unfold set_mish_dims. revert walk'.
  induction walk as [|node rest IH]; intros walk' Hw i n Hi; [done|].
  simpl in Hw.
  match type of Hw with (?step ≫= _) = _ => destruct step as [node'|] eqn:Hstep end;
    simpl in Hw; [|done].
  destruct (comprehension _ rest) as [rest'|]; simpl in Hw; [|done].
  injection Hw as <-.
  destruct i as [|i]; simpl in *.
  - injection Hi as ->. exists node'. split; [done|].
    destruct (has_dim n "nO"); [by injection Hstep as <-|].
    case_bool_decide; [|by injection Hstep as <-].
    unfold set_dim in Hstep. destruct (dims n !! "nO") as [[old|]|]; [| |done].
    + case_bool_decide; [|done]. by injection Hstep as <-.
    + by injection Hstep as <-.
  - by apply IH.
Qed.

Lemma labels_same_attrs (m m' : Model) (v : attr) :
  refs m' = refs m →
  (∀ i n, nodes m !! i = Some n → ∃ n', nodes m' !! i = Some n' ∧ attrs n' = attrs n) →
  labels m = Ok v → labels m' = Ok v.
Proof.
  intros Hrefs Hnodes (i & n & [Hr Hn]%get_ref_Ok & Hv)%labels_Ok.
  destruct (Hnodes i n Hn) as (n' & Hn' & Hattrs).
  apply labels_Ok. exists i, n'. split; [|by rewrite Hattrs].
  apply get_ref_Ok. by rewrite Hrefs.
Qed.

(** C9 (amended): when the registry already holds a list of labels,
    [begin_training] leaves it as it is, whether the call returns or raises:
    the discovered labels are not added, and the tag names, and so the action
    indices, stay what they were.  The model's [initialize] is taken to leave
    the [labels] attribute alone. *)
Theorem begin_training_keeps_registry `{Thinc F}
    (self : SimpleNER) (get_examples : provider) (kwargs : gmap string string)
    (ls : list string) :
  (∀ m X m', initialize m X = Ok m' → labels m' = labels m) →
  labels (model self) = Ok (ALabels ls) →
  labels (model (begin_training self get_examples kwargs).1) = Ok (ALabels ls) ∧
  get_tag_names (model (begin_training self get_examples kwargs).1)
    = get_tag_names (model self).
Proof.
  intros Hinit Hl.
  assert (labels (model (begin_training self get_examples kwargs).1) = Ok (ALabels ls))
    as Hafter.
  { unfold begin_training.
    destruct (_get_labels (call_provider get_examples)) as [discovered|]; [|done].
    pose proof (_set_labels_keeps_registry _ _ discovered Hl) as Hl1.
    simpl in *.
    destruct (_get_sample _ _ _) as [[doc_sample output_sample]|]; [|done].
    destruct doc_sample as [|d doc_sample].
    - destruct (set_mish_dims _ _) as [walk|] eqn:Hwalk; [|done].
      assert (labels {| nodes := walk; refs := refs (model self) |} = Ok (ALabels ls))
        as Hl2.
      { eapply labels_same_attrs; [| |exact Hl1]; [done|].
        by apply set_mish_dims_attrs with (n_actions := length discovered * 4 + 1). }
      destruct (initialize _ None) as [m3|] eqn:Hm3; simpl; [|done].
      by rewrite (Hinit _ _ _ Hm3).
    - destruct (initialize _ (Some _)) as [m2|] eqn:Hm2; simpl; [|done].
      by rewrite (Hinit _ _ _ Hm2). }
  split; [done|].
  by rewrite (get_tag_names_labels _ _ Hafter), (get_tag_names_labels _ _ Hl).
Qed.

Lemma begin_training_keeps_registry_witness :
  (∀ m X m', initialize (F := Z) m X = Ok m' → labels m' = labels m) ∧
  labels (model (mkSimpleNER (model_of (ALabels ["A"])) ∅)) = Ok (ALabels ["A"]) ∧
  labels (model (begin_training (F := Z) (mkSimpleNER (model_of (ALabels ["A"])) ∅)
                   (Fixed []) ∅).1) = Ok (ALabels ["A"]) ∧
  get_tag_names (model (begin_training (F := Z) (mkSimpleNER (model_of (ALabels ["A"])) ∅)
                          (Fixed []) ∅).1)
    = get_tag_names (model (mkSimpleNER (model_of (ALabels ["A"])) ∅)).
Proof.
  assert (∀ m X m', initialize (F := Z) m X = Ok m' → labels m' = labels m) as Hinit.
  { intros m X m' Hm. simpl in Hm. by injection Hm as <-. }
  split; [exact Hinit|]. split; [reflexivity|].
  exact (begin_training_keeps_registry (F := Z)
           (mkSimpleNER (model_of (ALabels ["A"])) ∅) (Fixed []) ∅ ["A"]
           Hinit eq_refl).
Defined.

(** C9, as stated, fails: with ["A"] registered and a corpus whose only label
    is ["B"], discovery finds ["B"], yet after [begin_training] the registry
    is still [["A"]], where [add_label] would have made it [["A"; "B"]];
    [_set_labels] itself leaves it alone and returns the action count of the
    discovered labels. *)
Lemma begin_training_not_additive :
  _get_labels [example_of ["U-B"]] = Ok ["B"] ∧
  labels (model (begin_training (F := Z) (mkSimpleNER (model_of (ALabels ["A"])) ∅)
                   (Fixed [example_of ["U-B"]]) ∅).1) = Ok (ALabels ["A"]) ∧
  (add_label (model_of (ALabels ["A"])) "B" ≫= labels) = Ok (ALabels ["A"; "B"]) ∧
  labels (_set_labels (model_of (ALabels ["A"])) ["B"]).1 = Ok (ALabels ["A"]) ∧
  (_set_labels (model_of (ALabels ["A"])) ["B"]).2 = 5.
Proof. repeat split; vm_compute; reflexivity. Qed.

(** ** The tag scheme: decoding an encoded span set *)

Lemma covers_iff (sp : Span) (i : nat) :
  covers sp i = true ↔ span_start sp ≤ i ∧ i < span_end sp.
Proof.
  unfold covers. rewrite andb_true_iff, !bool_decide_eq_true. done.
Qed.

Lemma non_overlapping_tail (sp : Span) (spans : list Span) :
  non_overlapping (sp :: spans) → non_overlapping spans.
Proof.
  intros Hno i j a b Hi Hj Hij. apply (Hno (S i) (S j)); [done..|lia].
Qed.

Lemma non_overlapping_overlapping (spans : list Span) :
  non_overlapping spans → overlapping spans = false.
Proof.
  induction spans as [|sp rest IH]; intros Hno; [done|]. simpl.
  rewrite IH by (by eapply non_overlapping_tail). rewrite orb_false_r.
  apply not_true_is_false. intros (b & Hb & Hov)%existsb_exists.
  apply list_elem_of_In, list_elem_of_lookup in Hb as [j Hj].
  unfold overlap in Hov.
  apply andb_true_iff in Hov as [H1%bool_decide_eq_true H2%bool_decide_eq_true].
  destruct (Hno 0 (S j) sp b) as [?|?]; [done..|lia|lia].
Qed.

Section roundtrip.
Variable spans : list Span.
Hypothesis spans_not_empty : ∀ sp, sp ∈ spans → span_start sp < span_end sp.
Hypothesis spans_disjoint : non_overlapping spans.

Lemma cover_unique (i : nat) (a b : Span) :
  a ∈ spans → b ∈ spans → covers a i = true → covers b i = true → a = b.
Proof.
  intros [j Hj]%list_elem_of_lookup [k Hk]%list_elem_of_lookup
    Ha%covers_iff Hb%covers_iff.
  destruct (decide (j = k)) as [->|Hjk]; [congruence|].
  destruct (spans_disjoint j k a b) as [?|?]; [done..|lia|lia].
Qed.

Lemma find_cover (i : nat) (c : Span) :
  find (λ sp, covers sp i) spans = Some c → c ∈ spans ∧ covers c i = true.
Proof. intros [Hin Hc]%find_some. by apply list_elem_of_In in Hin. Qed.

Lemma find_no_cover (i : nat) (sp : Span) :
  find (λ sp, covers sp i) spans = None → sp ∈ spans → covers sp i = false.
Proof. intros Hnone Hin%list_elem_of_In. by apply (find_none _ _ Hnone). Qed.

Lemma open_at_inside (i : nat) (open : option (nat * string)) (c : Span) :
  open_at spans i open → c ∈ spans → span_start c < i → i < span_end c →
  open = Some (span_start c, span_label c).
Proof. intros Hopen Hc Hs He. apply Hopen. exists c. done. Qed.

(** After a token that no span covers, or that ends its span, nothing is open. *)
Lemma open_at_closed (i : nat) :
  (∀ sp, sp ∈ spans → covers sp i = true → span_end sp = S i) →
  open_at spans (S i) None.
Proof.
  intros Hend s l. split; [done|]. intros (sp & Hin & <- & _ & Hs & He).
  assert (span_end sp = S i); [|lia]. apply Hend; [done|]. apply covers_iff. lia.
Qed.

(** After a token of a span that goes on, that span is open. *)
Lemma open_at_continues (i : nat) (c : Span) :
  c ∈ spans → covers c i = true → S i < span_end c →
  open_at spans (S i) (Some (span_start c, span_label c)).
Proof.
  intros Hc Hcov Hlong s l. apply covers_iff in Hcov as Hc'. split.
  - intros [= <- <-]. exists c. repeat split; [done|lia|done].
  - intros (sp & Hin & <- & <- & Hs & He).
    assert (sp = c) as ->; [|done].
    apply (cover_unique i); [done..|apply covers_iff; lia|done].
Qed.

Lemma decode_from_encoded (k i : nat) (open : option (nat * string)) :
  open_at spans i open →
  ∀ sp, sp ∈ decode_from i open (tag_at spans <$> seq i k) ↔
        sp ∈ spans ∧ i < span_end sp ∧ span_end sp ≤ i + k.
Proof.
  revert i open. induction k as [|k IH]; intros i open Hopen sp; simpl.
  { split; [by intros ?%elem_of_nil|lia]. }
  unfold tag_at at 1.
  destruct (find (λ sp, covers sp i) spans) as [c|] eqn:Hfind.
  - apply find_cover in Hfind as [Hc Hcov]. apply covers_iff in Hcov as Hc'.
    pose proof (spans_not_empty c Hc) as Hpos.
    assert (∀ sp', sp' ∈ spans → span_end sp' = S i → sp' = c) as Hends.
    { intros sp' Hin He. apply (cover_unique i); [done..| |done].
      apply covers_iff. pose proof (spans_not_empty sp' Hin). lia. }
    unfold span_tag. repeat case_bool_decide.
    + (* U *)
      assert (c = mkSpan i (S i) (span_label c)) as Hc_eq.
      { destruct c as [s e l]. simpl in *. f_equal; lia. }
      rewrite elem_of_cons, IH.
      2:{ apply open_at_closed. intros sp' Hin Hcov'.
          rewrite (cover_unique i sp' c); [lia|done..]. }
      rewrite <-Hc_eq. split.
      * intros [->|(? & ? & ?)]; [split; [done|lia]|split; [done|lia]].
      * intros (Hin & ? & ?). destruct (decide (span_end sp = S i)) as [He|?].
        -- left. by apply Hends.
        -- right. split; [done|lia].
    + (* B *)
      rewrite IH.
      2:{ subst i. apply open_at_continues; [done..|lia]. }
      split; [intros (? & ? & ?); split; [done|lia]|].
      intros (Hin & ? & ?). split; [done|].
      destruct (decide (span_end sp = S i)) as [He|?]; [|lia].
      apply Hends in He; [|done]. subst sp. lia.
    + (* L *)
      rewrite (open_at_inside i open c); [|done..|lia|lia].
      rewrite bool_decide_true by done.
      assert (c = mkSpan (span_start c) (S i) (span_label c)) as Hc_eq.
      { destruct c as [s e l]. simpl in *. f_equal; lia. }
      rewrite elem_of_cons, IH.
      2:{ apply open_at_closed. intros sp' Hin Hcov'.
          rewrite (cover_unique i sp' c); [lia|done..]. }
      rewrite <-Hc_eq. split.
      * intros [->|(? & ? & ?)]; [split; [done|lia]|split; [done|lia]].
      * intros (Hin & ? & ?). destruct (decide (span_end sp = S i)) as [He|?].
        -- left. by apply Hends.
        -- right. split; [done|lia].
    + (* I *)
      rewrite (open_at_inside i open c); [|done..|lia|lia].
      rewrite bool_decide_true by done.
      rewrite IH.
      2:{ apply open_at_continues; [done..|lia]. }
      split; [intros (? & ? & ?); split; [done|lia]|].
      intros (Hin & ? & ?). split; [done|].
      destruct (decide (span_end sp = S i)) as [He|?]; [|lia].
      apply Hends in He; [|done]. subst sp. lia.
  - rewrite IH.
    2:{ apply open_at_closed. intros sp' Hin Hcov'.
        by rewrite (find_no_cover i sp') in Hcov'. }
    split; [intros (? & ? & ?); split; [done|lia]|].
    intros (Hin & ? & ?). split; [done|].
    destruct (decide (span_end sp = S i)) as [He|?]; [|lia].
    pose proof (spans_not_empty sp Hin).
    assert (covers sp i = true) as Hcov by (apply covers_iff; lia).
    by rewrite (find_no_cover i sp) in Hcov.
Qed.
End roundtrip.

(** C8: for spans that lie inside the document, are not empty, do not
    overlap and carry registered labels, [encode] returns one tag per token
    and [decode] of these tags holds exactly the spans that were encoded. *)
Theorem decode_encode_roundtrip (registry : list string) (d : Doc) (spans : list Span) :
  spans_in_bounds (len d) spans →
  non_overlapping spans →
  (∀ sp, sp ∈ spans → span_label sp ∈ registry) →
  ∃ tags,
    encode registry d spans = Ok tags ∧
    length tags = len d ∧
    ∀ sp, sp ∈ decode d tags ↔ sp ∈ spans.
Proof.
  intros Hbounds Hno Hlabels. unfold encode.
  rewrite (non_overlapping_overlapping _ Hno).
  assert (forallb (λ sp, bool_decide (span_label sp ∈ registry)) spans = true) as ->.
  { apply forallb_forall. intros sp Hin%list_elem_of_In.
    apply bool_decide_eq_true. by apply Hlabels. }
  eexists. split; [done|]. split; [by rewrite length_fmap, length_seq|].
  intros sp. unfold decode. rewrite decode_from_encoded.
  - split; [by intros [? _]|]. intros Hin. split; [done|].
    destruct (Hbounds sp Hin). lia.
  - intros sp' Hin. by destruct (Hbounds sp' Hin).
  - done.
  - intros s l. split; [done|]. intros (? & _ & _ & _ & ? & _). lia.
Qed.

Lemma decode_encode_roundtrip_witness :
  spans_in_bounds (len (mkDoc ["Ada"; "Lovelace"; "visited"; "Turin"; "."] []))
    [mkSpan 3 4 "GPE"; mkSpan 0 2 "PERSON"] ∧
  non_overlapping [mkSpan 3 4 "GPE"; mkSpan 0 2 "PERSON"] ∧
  (∀ sp, sp ∈ [mkSpan 3 4 "GPE"; mkSpan 0 2 "PERSON"] →
     span_label sp ∈ ["PERSON"; "GPE"]) ∧
  ∃ tags,
    encode ["PERSON"; "GPE"] (mkDoc ["Ada"; "Lovelace"; "visited"; "Turin"; "."] [])
      [mkSpan 3 4 "GPE"; mkSpan 0 2 "PERSON"] = Ok tags ∧
    length tags = len (mkDoc ["Ada"; "Lovelace"; "visited"; "Turin"; "."] []) ∧
    ∀ sp, sp ∈ decode (mkDoc ["Ada"; "Lovelace"; "visited"; "Turin"; "."] []) tags ↔
          sp ∈ [mkSpan 3 4 "GPE"; mkSpan 0 2 "PERSON"].
Proof.
  assert (spans_in_bounds 5 [mkSpan 3 4 "GPE"; mkSpan 0 2 "PERSON"]) as Hb.
  { intros sp Hin.
    repeat (apply elem_of_cons in Hin as [->|Hin]); simpl; [lia..|].
    by apply elem_of_nil in Hin. }
  assert (non_overlapping [mkSpan 3 4 "GPE"; mkSpan 0 2 "PERSON"]) as Hno.
  { intros [|[|i]] [|[|j]] a b Ha Hb' Hij; simplify_eq/=; lia. }
  assert (∀ sp, sp ∈ [mkSpan 3 4 "GPE"; mkSpan 0 2 "PERSON"] →
            span_label sp ∈ ["PERSON"; "GPE"]) as Hl.
  { intros sp Hin.
    repeat (apply elem_of_cons in Hin as [->|Hin]); simpl;
      [apply (bool_decide_unpack _); by vm_compute..|].
    by apply elem_of_nil in Hin. }
  split; [exact Hb|]. split; [exact Hno|]. split; [exact Hl|].
  exact (decode_encode_roundtrip ["PERSON"; "GPE"]
           (mkDoc ["Ada"; "Lovelace"; "visited"; "Turin"; "."] [])
           [mkSpan 3 4 "GPE"; mkSpan 0 2 "PERSON"] Hb Hno Hl).
Defined.

Example encode_scenario_1 :
  encode ["PERSON"; "GPE"] (mkDoc ["Ada"; "Lovelace"; "visited"; "Turin"; "."] [])
    [mkSpan 0 2 "PERSON"; mkSpan 3 4 "GPE"]
  = Ok [Begin "PERSON"; Last "PERSON"; Outside; Unit "GPE"; Outside].
Proof. vm_compute. reflexivity. Qed.

Example decode_scenario_2 :
  decode (mkDoc ["a"; "b"; "c"; "d"] [])
    [Outside; Inside "PERSON"; Last "PERSON"; Outside] = [].
Proof. reflexivity. Qed.

Lemma parse_tag_name (t : Tag) : parse_tag (tag_name t) = Some t.
Proof. by destruct t. Qed.

(** * Further properties *)

(** ** [add_label] and [get_tag_names] *)

Lemma add_label_labels (m : Model) (x : string) (v : attr) :
  labels m = Ok v →
  ∃ m1, add_label m x = Ok m1 ∧
        labels m1 = Ok (ALabels (with_label (registered v) x)).
Proof.
  intros (i & n & Href & Hv)%labels_Ok.
  unfold add_label, getitem_attrs, with_label. rewrite Href. simpl. rewrite Hv. simpl.
  destruct v as [|ls]; simpl.
  - eexists. split; [done|]. by eapply labels_setitem.
  - case_bool_decide.
    + eexists. split; [done|]. apply labels_Ok; eauto.
    + eexists. split; [done|]. by eapply labels_setitem.
Qed.

(** X1: [add_label] raises exactly when reading [labels] raises, with the
    same exception: [KeyError] for a model without a ["biluo"] reference or a
    node without a ["labels"] attribute. *)
Theorem add_label_raises_iff (m : Model) (x : string) (e : exn) :
  add_label m x = Raise e ↔ labels m = Raise e.
Proof.
  unfold add_label, labels, getitem_attrs.
  destruct (get_ref m "biluo") as [[i n]|e']; simpl;
    [|split; intros [= ->]; done].
  destruct (attrs n !! "labels") as [[|ls]|]; simpl; try case_bool_decide;
    split; intros Heq; first [done | by injection Heq as <-].
Qed.

Example add_label_no_reference :
  add_label (mkModel [biluo_node ANone] ∅) "PERSON" = Raise (KeyError "biluo").
Proof. reflexivity. Qed.

Lemma setitem_attrs_frame (m : Model) (i : nat) (v : attr) (j : nat) (n : Node) :
  nodes m !! j = Some n →
  ∃ n1, nodes (setitem_attrs m i "labels" v) !! j = Some n1 ∧
        name n1 = name n ∧ dims n1 = dims n ∧
        (∀ k, k ≠ "labels" → attrs n1 !! k = attrs n !! k) ∧
        (i ≠ j → n1 = n).
Proof.
  intros Hj. unfold setitem_attrs.
  destruct (nodes m !! i) as [ni|] eqn:Hi; simpl; [|by exists n].
  destruct (decide (i = j)) as [->|Hij].
  - rewrite Hj in Hi. injection Hi as <-.
    rewrite list_lookup_insert_eq by (by eapply lookup_lt_Some).
    eexists. split; [done|]. simpl. split_and!; [done..| |done].
    intros k Hk. by rewrite lookup_insert_ne.
  - rewrite list_lookup_insert_ne by done. by exists n.
Qed.

(** X2: [add_label] writes nothing but the ["labels"] attribute of the node
    the ["biluo"] reference names: the references, the number of nodes, every
    node's name, dimensions and other attributes, and every other node stay
    as they were. *)
Theorem add_label_frame (m m1 : Model) (x : string) :
  add_label m x = Ok m1 →
  refs m1 = refs m ∧
  length (nodes m1) = length (nodes m) ∧
  ∀ j n, nodes m !! j = Some n →
    ∃ n1, nodes m1 !! j = Some n1 ∧
          name n1 = name n ∧ dims n1 = dims n ∧
          (∀ k, k ≠ "labels" → attrs n1 !! k = attrs n !! k) ∧
          (refs m !! "biluo" ≠ Some j → n1 = n).
Proof.
  unfold add_label, getitem_attrs.
  destruct (get_ref m "biluo") as [[i n]|] eqn:Href; simpl; [|done].
  apply get_ref_Ok in Href as [Hr Hn].
  assert (∀ v, refs (setitem_attrs m i "labels" v) = refs m ∧
               length (nodes (setitem_attrs m i "labels" v)) = length (nodes m) ∧
               ∀ j n, nodes m !! j = Some n →
                 ∃ n1, nodes (setitem_attrs m i "labels" v) !! j = Some n1 ∧
                       name n1 = name n ∧ dims n1 = dims n ∧
                       (∀ k, k ≠ "labels" → attrs n1 !! k = attrs n !! k) ∧
                       (refs m !! "biluo" ≠ Some j → n1 = n)) as Hset.
  { intros v. split_and!.
    - unfold setitem_attrs. by rewrite Hn.
    - unfold setitem_attrs. rewrite Hn. simpl. by rewrite length_insert.
    - intros j nj Hj.
      destruct (setitem_attrs_frame m i v j nj Hj) as (n1 & ? & ? & ? & ? & Hother).
      exists n1. split_and!; [done..|]. intros Hne. apply Hother. congruence. }
  destruct (attrs n !! "labels") as [[|ls]|]; simpl; [| |done].
  - intros [= <-]. apply Hset.
  - case_bool_decide; intros [= <-]; [|apply Hset].
    split_and!; [done..|]. intros j nj Hj. exists nj. done.
Qed.

Lemma add_label_frame_witness :
  add_label (mish_model_of (ALabels ["A"])) "B"
    = Ok (mish_model_of (ALabels ["A"; "B"])) ∧
  refs (mish_model_of (ALabels ["A"; "B"])) = refs (mish_model_of (ALabels ["A"])) ∧
  length (nodes (mish_model_of (ALabels ["A"; "B"])))
    = length (nodes (mish_model_of (ALabels ["A"]))) ∧
  ∀ j n, nodes (mish_model_of (ALabels ["A"])) !! j = Some n →
    ∃ n1, nodes (mish_model_of (ALabels ["A"; "B"])) !! j = Some n1 ∧
          name n1 = name n ∧ dims n1 = dims n ∧
          (∀ k, k ≠ "labels" → attrs n1 !! k = attrs n !! k) ∧
          (refs (mish_model_of (ALabels ["A"])) !! "biluo" ≠ Some j → n1 = n).
Proof.
  assert (add_label (mish_model_of (ALabels ["A"])) "B"
            = Ok (mish_model_of (ALabels ["A"; "B"]))) as Hadd.
  { vm_compute. reflexivity. }
  split; [exact Hadd|].
  exact (add_label_frame _ _ "B" Hadd).
Defined.

Lemma with_label_elem (ls : list string) (x l : string) :
  l ∈ with_label ls x ↔ l ∈ ls ∨ l = x.
Proof.
  unfold with_label. case_bool_decide.
  - split; [by left|]. by intros [?| ->].
  - rewrite elem_of_app, list_elem_of_singleton. done.
Qed.

Lemma with_label_prefix (ls : list string) (x : string) : ls `prefix_of` with_label ls x.
Proof. unfold with_label. case_bool_decide; [done|]. by apply prefix_app_r. Qed.

Lemma with_label_NoDup (ls : list string) (x : string) :
  NoDup ls → NoDup (with_label ls x).
Proof.
  intros Hnd. unfold with_label. case_bool_decide; [done|].
  apply NoDup_app. split_and!; [done| |apply NoDup_singleton].
  intros l Hl ->%list_elem_of_singleton. done.
Qed.

(** X3: adding the labels [xs] one after the other succeeds on every
    registry state and leaves the old labels first, in their order, followed
    by the labels of [xs] that were new, in the order they first came; the
    registry then holds the old labels and those of [xs], and has no
    duplicates when it had none. *)
Theorem add_label_sequence (m : Model) (xs : list string) (v : attr) :
  labels m = Ok v →
  ∃ m' v',
    for_each add_label m xs = Ok m' ∧
    labels m' = Ok v' ∧
    registered v' = foldl with_label (registered v) xs ∧
    (∀ l, l ∈ registered v' ↔ l ∈ registered v ∨ l ∈ xs) ∧
    registered v `prefix_of` registered v' ∧
    (NoDup (registered v) → NoDup (registered v')).
Proof.
  revert m v. induction xs as [|x xs IH]; intros m v Hl; simpl.
  - exists m, v. split_and!; [done..| |done|done].
    intros l. split; [by left|]. by intros [?|?%elem_of_nil].
  - destruct (add_label_labels m x v Hl) as (m1 & -> & Hl1). simpl.
    destruct (IH m1 _ Hl1) as (m' & v' & Hfor & Hl' & Hreg & Hmem & Hpre & Hnd).
    simpl in *. exists m', v'. split_and!; [done..| | |].
    + intros l. rewrite Hmem, with_label_elem, elem_of_cons. tauto.
    + etrans; [apply with_label_prefix|done].
    + intros ?. by apply Hnd, with_label_NoDup.
Qed.

Lemma add_label_sequence_witness :
  labels (model_of (ALabels ["GPE"])) = Ok (ALabels ["GPE"]) ∧
  ∃ m' v',
    for_each add_label (model_of (ALabels ["GPE"])) ["ORG"; "GPE"; "ORG"; "LOC"] = Ok m' ∧
    labels m' = Ok v' ∧
    registered v' = foldl with_label (registered (ALabels ["GPE"])) ["ORG"; "GPE"; "ORG"; "LOC"] ∧
    (∀ l, l ∈ registered v' ↔
       l ∈ registered (ALabels ["GPE"]) ∨ l ∈ ["ORG"; "GPE"; "ORG"; "LOC"]) ∧
    registered (ALabels ["GPE"]) `prefix_of` registered v' ∧
    (NoDup (registered (ALabels ["GPE"])) → NoDup (registered v')).
Proof.
  split; [reflexivity|].
  apply (add_label_sequence (model_of (ALabels ["GPE"]))
           ["ORG"; "GPE"; "ORG"; "LOC"] (ALabels ["GPE"])).
  reflexivity.
Defined.

Example add_label_sequence_example :
  (for_each add_label (model_of (ALabels ["GPE"])) ["ORG"; "GPE"; "ORG"; "LOC"] ≫= labels)
  = Ok (ALabels ["GPE"; "ORG"; "LOC"]).
Proof. vm_compute. reflexivity. Qed.

Lemma get_tag_names_tag_names (m : Model) (ls : list string) :
  labels m = Ok (ALabels ls) → get_tag_names m = Ok (tag_names ls).
Proof. apply get_tag_names_labels. Qed.

Lemma lookup_app_plus {A} (l1 l2 : list A) (n i : nat) :
  length l1 = n → (l1 ++ l2) !! (n + i) = l2 !! i.
Proof.
  intros <-. rewrite lookup_app_r by lia. f_equal. lia.
Qed.

(** The place of each tag of a label in the list of tag names. *)
Lemma tag_names_lookup (ls : list string) (i : nat) (l : string) :
  ls !! i = Some l →
  tag_names ls !! i = Some ("B-" +:+ l) ∧
  tag_names ls !! (length ls + i) = Some ("I-" +:+ l) ∧
  tag_names ls !! (2 * length ls + i) = Some ("L-" +:+ l) ∧
  tag_names ls !! (3 * length ls + i) = Some ("U-" +:+ l) ∧
  tag_names ls !! (4 * length ls) = Some "O".
Proof.
  intros Hi. unfold tag_names.
  assert (∀ p : string, ((λ label, p +:+ label) <$> ls) !! i = Some (p +:+ l)) as Hp.
  { intros p. by rewrite list_lookup_fmap, Hi. }
  split_and!.
  - apply lookup_app_l_Some, Hp.
  - rewrite lookup_app_plus by apply length_fmap. apply lookup_app_l_Some, Hp.
  - replace (2 * length ls + i) with (length ls + (length ls + i)) by lia.
    rewrite !lookup_app_plus by apply length_fmap. apply lookup_app_l_Some, Hp.
  - replace (3 * length ls + i) with (length ls + (length ls + (length ls + i))) by lia.
    rewrite !lookup_app_plus by apply length_fmap. apply lookup_app_l_Some, Hp.
  - replace (4 * length ls)
      with (length ls + (length ls + (length ls + (length ls + 0)))) by lia.
    by rewrite !lookup_app_plus by apply length_fmap.
Qed.

(** X4: the action index of a tag: for the label at position [i] of a
    registry of [n] labels, [B-label] is tag [i], [I-label] tag [n + i],
    [L-label] tag [2n + i] and [U-label] tag [3n + i]; ["O"] is tag [4n]. *)
Theorem get_tag_names_index (m : Model) (ls : list string) (i : nat) (l : string) :
  labels m = Ok (ALabels ls) →
  ls !! i = Some l →
  ∃ names,
    get_tag_names m = Ok names ∧
    names !! i = Some ("B-" +:+ l) ∧
    names !! (length ls + i) = Some ("I-" +:+ l) ∧
    names !! (2 * length ls + i) = Some ("L-" +:+ l) ∧
    names !! (3 * length ls + i) = Some ("U-" +:+ l) ∧
    names !! (4 * length ls) = Some "O".
Proof.
  intros Hl Hi. exists (tag_names ls). split; [by apply get_tag_names_tag_names|].
  by apply tag_names_lookup.
Qed.

Lemma get_tag_names_index_witness :
  labels (model_of (ALabels ["GPE"; "PERSON"])) = Ok (ALabels ["GPE"; "PERSON"]) ∧
  ["GPE"; "PERSON"] !! 1 = Some "PERSON" ∧
  ∃ names,
    get_tag_names (model_of (ALabels ["GPE"; "PERSON"])) = Ok names ∧
    names !! 1 = Some "B-PERSON" ∧
    names !! (length ["GPE"; "PERSON"] + 1) = Some "I-PERSON" ∧
    names !! (2 * length ["GPE"; "PERSON"] + 1) = Some "L-PERSON" ∧
    names !! (3 * length ["GPE"; "PERSON"] + 1) = Some "U-PERSON" ∧
    names !! (4 * length ["GPE"; "PERSON"]) = Some "O".
Proof.
  split; [reflexivity|]. split; [reflexivity|].
  apply (get_tag_names_index (model_of (ALabels ["GPE"; "PERSON"]))
           ["GPE"; "PERSON"] 1 "PERSON"); reflexivity.
Defined.

Lemma prefixed_NoDup (p : string) (ls : list string) :
  NoDup ((λ label, p +:+ label) <$> ls) ↔ NoDup ls.
Proof.
  split; [apply NoDup_fmap_1|]. apply NoDup_fmap_2. apply _.
Qed.

Lemma prefixed_elem (p x : string) (ls : list string) :
  x ∈ (λ label, p +:+ label) <$> ls → ∃ l, x = p +:+ l.
Proof. intros (l & -> & _)%list_elem_of_fmap. by exists l. Qed.

(** X5: the tag names are pairwise different exactly when the registry has
    no duplicate label, so that a tag has one action index. *)
Theorem get_tag_names_NoDup (m : Model) (ls : list string) :
  labels m = Ok (ALabels ls) →
  ∃ names, get_tag_names m = Ok names ∧ (NoDup names ↔ NoDup ls).
Proof.
  intros Hl. exists (tag_names ls). split; [by apply get_tag_names_tag_names|].
  unfold tag_names. split.
  - intros Hnd%NoDup_app. destruct Hnd as [Hb _]. by apply prefixed_NoDup in Hb.
  - intros Hnd.
    repeat (apply NoDup_app; split_and!; [by apply prefixed_NoDup| |]);
      [..|apply NoDup_singleton];
      intros x [l ->]%prefixed_elem Hin;
      repeat (apply elem_of_app in Hin as [[l' Heq]%prefixed_elem|Hin];
              [discriminate Heq|]);
      apply list_elem_of_singleton in Hin; discriminate Hin.
Qed.

Lemma get_tag_names_NoDup_witness :
  labels (model_of (ALabels ["GPE"; "PERSON"])) = Ok (ALabels ["GPE"; "PERSON"]) ∧
  ∃ names, get_tag_names (model_of (ALabels ["GPE"; "PERSON"])) = Ok names ∧
           (NoDup names ↔ NoDup ["GPE"; "PERSON"]).
Proof.
  split; [reflexivity|].
  apply (get_tag_names_NoDup (model_of (ALabels ["GPE"; "PERSON"])) ["GPE"; "PERSON"]).
  reflexivity.
Defined.

(** X6: adding a label that is new moves the tags of the labels already
    registered: with [n] labels before, [B-label] keeps its index [i], while
    [I-label] goes from [n + i] to [n + 1 + i], [L-label] from [2n + i] to
    [2n + 2 + i], [U-label] from [3n + i] to [3n + 3 + i] and ["O"] from [4n]
    to [4n + 4]; there are four more tag names. *)
Theorem add_label_moves_tags (m : Model) (ls : list string) (x : string)
    (i : nat) (l : string) :
  labels m = Ok (ALabels ls) →
  x ∉ ls →
  ls !! i = Some l →
  ∃ m1 names names1,
    add_label m x = Ok m1 ∧
    get_tag_names m = Ok names ∧
    get_tag_names m1 = Ok names1 ∧
    length names1 = length names + 4 ∧
    names !! i = Some ("B-" +:+ l) ∧
    names1 !! i = Some ("B-" +:+ l) ∧
    names !! (length ls + i) = Some ("I-" +:+ l) ∧
    names1 !! (length ls + 1 + i) = Some ("I-" +:+ l) ∧
    names !! (2 * length ls + i) = Some ("L-" +:+ l) ∧
    names1 !! (2 * length ls + 2 + i) = Some ("L-" +:+ l) ∧
    names !! (3 * length ls + i) = Some ("U-" +:+ l) ∧
    names1 !! (3 * length ls + 3 + i) = Some ("U-" +:+ l) ∧
    names !! (4 * length ls) = Some "O" ∧
    names1 !! (4 * length ls + 4) = Some "O".
Proof.
  intros Hl Hx Hi.
  destruct (add_label_labels m x _ Hl) as (m1 & Hadd & Hl1).
  simpl in Hl1. unfold with_label in Hl1. rewrite bool_decide_false in Hl1 by done.
  exists m1, (tag_names ls), (tag_names (ls ++ [x])).
  split; [done|]. split; [by apply get_tag_names_tag_names|].
  split; [by apply get_tag_names_tag_names|].
  destruct (tag_names_lookup ls i l Hi) as (Hb & Hi' & Hl' & Hu & Ho).
  destruct (tag_names_lookup (ls ++ [x]) i l) as (Hb1 & Hi1 & Hl1' & Hu1 & Ho1);
    [by apply lookup_app_l_Some|].
  rewrite length_app in Hi1, Hl1', Hu1, Ho1. simpl in Hi1, Hl1', Hu1, Ho1.
  split_and!; try done.
  - unfold tag_names. rewrite !length_app, !length_fmap, !length_app. simpl. lia.
  - by replace (2 * length ls + 2 + i) with (2 * (length ls + 1) + i) by lia.
  - by replace (3 * length ls + 3 + i) with (3 * (length ls + 1) + i) by lia.
  - by replace (4 * length ls + 4) with (4 * (length ls + 1)) by lia.
Qed.

Lemma add_label_moves_tags_witness :
  labels (model_of (ALabels ["GPE"; "PERSON"])) = Ok (ALabels ["GPE"; "PERSON"]) ∧
  ("ORG" ∉ ["GPE"; "PERSON"]) ∧
  ["GPE"; "PERSON"] !! 0 = Some "GPE" ∧
  ∃ m1 names names1,
    add_label (model_of (ALabels ["GPE"; "PERSON"])) "ORG" = Ok m1 ∧
    get_tag_names (model_of (ALabels ["GPE"; "PERSON"])) = Ok names ∧
    get_tag_names m1 = Ok names1 ∧
    length names1 = length names + 4 ∧
    names !! 0 = Some "B-GPE" ∧
    names1 !! 0 = Some "B-GPE" ∧
    names !! (length ["GPE"; "PERSON"] + 0) = Some "I-GPE" ∧
    names1 !! (length ["GPE"; "PERSON"] + 1 + 0) = Some "I-GPE" ∧
    names !! (2 * length ["GPE"; "PERSON"] + 0) = Some "L-GPE" ∧
    names1 !! (2 * length ["GPE"; "PERSON"] + 2 + 0) = Some "L-GPE" ∧
    names !! (3 * length ["GPE"; "PERSON"] + 0) = Some "U-GPE" ∧
    names1 !! (3 * length ["GPE"; "PERSON"] + 3 + 0) = Some "U-GPE" ∧
    names !! (4 * length ["GPE"; "PERSON"]) = Some "O" ∧
    names1 !! (4 * length ["GPE"; "PERSON"] + 4) = Some "O".
Proof.
  assert ("ORG" ∉ ["GPE"; "PERSON"]) as Hx.
  { apply (bool_decide_unpack _). vm_compute. exact I. }
  split; [reflexivity|]. split; [exact Hx|]. split; [reflexivity|].
  exact (add_label_moves_tags (model_of (ALabels ["GPE"; "PERSON"]))
           ["GPE"; "PERSON"] "ORG" 0 "GPE" eq_refl Hx eq_refl).
Defined.

(** ** Methods on a registry that is not set *)

(** X7: while the registry is [None], every method that needs the tag names
    raises [TypeError] before it looks at its batch: [get_tag_names],
    [set_annotations], which leaves the documents alone, and [get_loss], also
    on empty batches. *)
Theorem unset_registry_raises `{Thinc F} (m : Model) :
  labels m = Ok ANone →
  get_tag_names m = Raise (TypeError "'NoneType' object is not iterable") ∧
  (∀ docs scores,
     set_annotations (F := F) m docs scores
     = (docs, Raise (TypeError "'NoneType' object is not iterable"))) ∧
  (∀ examples scores,
     get_loss m examples scores
     = Raise (TypeError "'NoneType' object is not iterable")).
Proof.
  intros Hl.
  assert (get_tag_names m = Raise (TypeError "'NoneType' object is not iterable")) as Hn.
  { unfold get_tag_names. by rewrite Hl. }
  split; [done|]. split.
  - intros docs scores. unfold set_annotations. by rewrite Hn.
  - intros examples scores. unfold get_loss. by rewrite Hn.
Qed.

Lemma unset_registry_raises_witness :
  labels (model_of ANone) = Ok ANone ∧
  get_tag_names (model_of ANone)
    = Raise (TypeError "'NoneType' object is not iterable") ∧
  (∀ docs scores,
     set_annotations (F := Z) (model_of ANone) docs scores
     = (docs, Raise (TypeError "'NoneType' object is not iterable"))) ∧
  (∀ examples scores,
     get_loss (F := Z) (model_of ANone) examples scores
     = Raise (TypeError "'NoneType' object is not iterable")).
Proof.
  split; [reflexivity|].
  apply (unset_registry_raises (F := Z) (model_of ANone)). reflexivity.
Defined.

Lemma get_tag_names_Ok (m : Model) (names : list string) :
  get_tag_names m = Ok names → ∃ ls, labels m = Ok (ALabels ls).
Proof.
  unfold get_tag_names. destruct (labels m) as [[|ls]|]; simpl; [done| |done].
  intros _. by exists ls.
Qed.

Lemma set_annotations_outcome `{Float F}
    (m : Model) (docs : list Doc) (scores : list (Floats2d F)) :
  (set_annotations m docs scores).1 = docs ∧
  ((set_annotations m docs scores).2 = Ok tt ↔
     docs = [] ∧ ∃ ls, labels m = Ok (ALabels ls)).
Proof.
  destruct docs as [|d rest].
  - unfold set_annotations. destruct (get_tag_names m) as [names|e] eqn:Hn; simpl.
    + split; [done|]. split; [|done]. intros _. split; [done|].
      by eapply get_tag_names_Ok.
    + split; [done|]. split; [done|]. intros [_ [ls Hl]].
      by rewrite (get_tag_names_labels _ _ Hl) in Hn.
  - destruct (set_annotations_raises m (d :: rest) scores) as [Hd [e He]]; [done|].
    split; [done|]. rewrite He. split; [done|]. by intros [? _].
Qed.

(** X8: [set_annotations] returns without an exception exactly on an empty
    batch with a registry that is a list, and it never changes a document:
    every batch with a document in it raises. *)
Theorem set_annotations_Ok_iff `{Float F}
    (m : Model) (docs : list Doc) (scores : list (Floats2d F)) :
  (set_annotations m docs scores).1 = docs ∧
  ((set_annotations m docs scores).2 = Ok tt ↔
     docs = [] ∧ ∃ ls, labels m = Ok (ALabels ls)).
Proof. apply set_annotations_outcome. Qed.

(** ** [_set_labels] *)

Lemma _set_labels_walk_frame (walk : list Node) (ls : list string) :
  length (_set_labels_walk walk ls) = length walk ∧
  (∀ j node, walk !! j = Some node →
     ∃ node', _set_labels_walk walk ls !! j = Some node' ∧
       name node' = name node ∧ dims node' = dims node ∧
       (node' = node ∨
        (name node = "biluo" ∧ is_None (attrs_get node "labels") = true ∧
         attrs node' = <["labels" := ALabels (sorted ls)]> (attrs node) ∧
         ∀ k other, k ≠ j → walk !! k = Some other →
           _set_labels_walk walk ls !! k = Some other))).
Proof.
  induction walk as [|node rest [IHlen IH]]; [done|]. simpl.
  destruct (bool_decide (name node = "biluo") && is_None (attrs_get node "labels"))
    eqn:Hguard; simpl.
  - apply andb_true_iff in Hguard as [Hname%bool_decide_eq_true Hnone].
    split; [done|]. intros [|j] nj Hj; simpl in Hj.
    + injection Hj as <-. eexists. split; [done|]. simpl. split_and!; [done..|].
      right. split_and!; [done..|]. by intros [|k] other Hk Hother.
    + exists nj. split_and!; try done. by left.
  - split; [by rewrite IHlen|]. intros [|j] nj Hj; simpl in Hj.
    + injection Hj as <-. exists node. split_and!; try done. by left.
    + destruct (IH j nj Hj) as (n' & Hn' & Hname & Hdims & [->|(? & ? & ? & Hothers)]).
      * exists nj. split_and!; try done. by left.
      * exists n'. split_and!; try done. right. split_and!; try done.
        intros [|k] other Hk Hother; simpl in *; [congruence|].
        apply Hothers; [lia|done].
Qed.

(** X9: [_set_labels] keeps the references, the number of nodes and every
    node's name and dimensions; a node it changes was named ["biluo"] with
    no labels, its ["labels"] attribute becomes the sorted labels, and every
    other node is then left as it was.  The count it returns is
    [4 * len(labels) + 1]. *)
Theorem set_labels_frame (m : Model) (ls : list string) :
  refs (_set_labels m ls).1 = refs m ∧
  length (nodes (_set_labels m ls).1) = length (nodes m) ∧
  (_set_labels m ls).2 = 4 * length ls + 1 ∧
  (∀ j node, nodes m !! j = Some node →
     ∃ node', nodes (_set_labels m ls).1 !! j = Some node' ∧
       name node' = name node ∧ dims node' = dims node ∧
       (node' = node ∨
        (name node = "biluo" ∧ is_None (attrs_get node "labels") = true ∧
         attrs node' = <["labels" := ALabels (sorted ls)]> (attrs node) ∧
         ∀ k other, k ≠ j → nodes m !! k = Some other →
           nodes (_set_labels m ls).1 !! k = Some other))).
Proof.
  destruct (_set_labels_walk_frame (nodes m) ls) as [Hlen Hnodes].
  simpl. split_and!; [done|done|lia|done].
Qed.

(** X10: on a model whose ["biluo"] reference is the first node of the walk
    that is named ["biluo"] and has no labels, [_set_labels] stores the
    sorted labels in the registry, and the count it returns is the number of
    tag names. *)
Theorem set_labels_unset_registry (m : Model) (ls : list string) (i : nat) :
  refs m !! "biluo" = Some i →
  first_unset_biluo (nodes m) i →
  labels (_set_labels m ls).1 = Ok (ALabels (sorted ls)) ∧
  (length <$> get_tag_names (_set_labels m ls).1) = Ok (_set_labels m ls).2.
Proof.
  intros Hr [(n & Hn & Hname & Hnone) Hfirst].
  apply (_set_labels_fresh m ls i n); [by apply get_ref_Ok|done..].
Qed.

Lemma set_labels_unset_registry_witness :
  refs (mish_model_of ANone) !! "biluo" = Some 1 ∧
  first_unset_biluo (nodes (mish_model_of ANone)) 1 ∧
  labels (_set_labels (mish_model_of ANone) ["PERSON"; "GPE"]).1
    = Ok (ALabels (sorted ["PERSON"; "GPE"])) ∧
  (length <$> get_tag_names (_set_labels (mish_model_of ANone) ["PERSON"; "GPE"]).1)
    = Ok (_set_labels (mish_model_of ANone) ["PERSON"; "GPE"]).2.
Proof.
  assert (first_unset_biluo (nodes (mish_model_of ANone)) 1) as Hfirst.
  { split.
    - eexists. split; [reflexivity|]. split; reflexivity.
    - intros [|j] n' Hj Hn'; [|lia]. injection Hn' as <-. left. done. }
  split; [reflexivity|]. split; [exact Hfirst|].
  exact (set_labels_unset_registry (mish_model_of ANone) ["PERSON"; "GPE"] 1
           eq_refl Hfirst).
Defined.

Example set_labels_sorts :
  labels (_set_labels (mish_model_of ANone) ["PERSON"; "GPE"]).1
  = Ok (ALabels ["GPE"; "PERSON"]).
Proof. vm_compute. reflexivity. Qed.

(** X11: on a registry that already holds [ls], [_set_labels] still returns
    the count of the labels it was given: when these are not as many as
    [ls], the count differs from the number of tag names of the model. *)
Theorem set_labels_count_mismatch (m : Model) (ls discovered : list string) :
  labels m = Ok (ALabels ls) →
  length discovered ≠ length ls →
  ∃ names,
    get_tag_names (_set_labels m discovered).1 = Ok names ∧
    length names = 4 * length ls + 1 ∧
    (_set_labels m discovered).2 = 4 * length discovered + 1 ∧
    length names ≠ (_set_labels m discovered).2.
Proof.
  intros Hl Hne.
  pose proof (_set_labels_keeps_registry m ls discovered Hl) as Hl'.
  exists (tag_names ls). split; [by apply get_tag_names_tag_names|].
  assert (length (tag_names ls) = 4 * length ls + 1) as Hlen.
  { unfold tag_names. rewrite !length_app, !length_fmap. simpl. lia. }
  split; [done|]. simpl. split; [lia|]. lia.
Qed.

Lemma set_labels_count_mismatch_witness :
  labels (model_of (ALabels ["A"])) = Ok (ALabels ["A"]) ∧
  length ["B"; "C"] ≠ length ["A"] ∧
  ∃ names,
    get_tag_names (_set_labels (model_of (ALabels ["A"])) ["B"; "C"]).1 = Ok names ∧
    length names = 4 * length ["A"] + 1 ∧
    (_set_labels (model_of (ALabels ["A"])) ["B"; "C"]).2 = 4 * length ["B"; "C"] + 1 ∧
    length names ≠ (_set_labels (model_of (ALabels ["A"])) ["B"; "C"]).2.
Proof.
  assert (length ["B"; "C"] ≠ length ["A"]) as Hne by (simpl; lia).
  split; [reflexivity|]. split; [exact Hne|].
  exact (set_labels_count_mismatch (model_of (ALabels ["A"])) ["A"] ["B"; "C"]
           eq_refl Hne).
Defined.

Lemma _set_labels_walk_none (walk : list Node) (ls : list string) :
  (∀ node, node ∈ walk →
     name node ≠ "biluo" ∨ is_None (attrs_get node "labels") = false) →
  _set_labels_walk walk ls = walk.
Proof.
  induction walk as [|node rest IH]; intros Hno; [done|]. simpl.
  destruct (Hno node) as [Hname|Hset]; [apply list_elem_of_here|..].
  - rewrite bool_decide_false by done. simpl. f_equal. apply IH.
    intros n' Hn'. apply Hno. by apply list_elem_of_further.
  - rewrite Hset, andb_false_r. f_equal. apply IH.
    intros n' Hn'. apply Hno. by apply list_elem_of_further.
Qed.

(** X12: when no node of the walk is a ["biluo"] node without labels,
    [_set_labels] leaves the whole model as it is and only returns the
    count; so a second call after a first one that found the only such node
    changes nothing. *)
Theorem set_labels_no_candidate (m : Model) (ls : list string) :
  (∀ node, node ∈ nodes m →
     name node ≠ "biluo" ∨ is_None (attrs_get node "labels") = false) →
  _set_labels m ls = (m, 4 * length ls + 1).
Proof.
  intros Hno. unfold _set_labels. rewrite _set_labels_walk_none by done.
  destruct m. simpl. f_equal. lia.
Qed.

Lemma set_labels_no_candidate_witness :
  (∀ node, node ∈ nodes (_set_labels (mish_model_of ANone) ["A"]).1 →
     name node ≠ "biluo" ∨ is_None (attrs_get node "labels") = false) ∧
  _set_labels (_set_labels (mish_model_of ANone) ["A"]).1 ["B"; "C"]
    = ((_set_labels (mish_model_of ANone) ["A"]).1, 4 * length ["B"; "C"] + 1).
Proof.
  assert (∀ node, node ∈ nodes (_set_labels (mish_model_of ANone) ["A"]).1 →
            name node ≠ "biluo" ∨ is_None (attrs_get node "labels") = false) as Hno.
  { intros node Hin. simpl in Hin.
    apply elem_of_cons in Hin as [->|Hin]; [by left|].
    apply elem_of_cons in Hin as [->|Hin]; [by right|].
    by apply elem_of_nil in Hin. }
  split; [exact Hno|].
  exact (set_labels_no_candidate _ ["B"; "C"] Hno).
Defined.

(** ** [_get_labels] on any corpus *)

Lemma _get_labels_tag_malformed (labels : gset string) (tag : string) :
  ¬ well_formed_tag tag →
  _get_labels_tag labels tag = Raise (ValueError "not enough values to unpack").
Proof.
  intros Hbad. unfold well_formed_tag in Hbad. unfold _get_labels_tag.
  assert (tag ≠ "O") as HO by tauto.
  assert ("-"%char ∉ chars tag) as Hh by tauto.
  assert (tag ≠ "-") as Hm.
  { intros ->. apply Hh. simpl. apply list_elem_of_here. }
  rewrite !bool_decide_true by done. simpl.
  apply split_hyphen_None in Hh. unfold split1. by rewrite Hh.
Qed.

Lemma _get_labels_tags_malformed (labels : gset string) (tags : list string) :
  ¬ Forall well_formed_tag tags →
  for_each _get_labels_tag labels tags
  = Raise (ValueError "not enough values to unpack").
Proof.
  revert labels. induction tags as [|tag tags IH]; intros labels Hbad.
  - by destruct Hbad.
  - simpl. destruct (decide (well_formed_tag tag)) as [Hwf|Hnwf].
    + destruct (_get_labels_tag_spec labels tag Hwf) as (labels' & -> & _). simpl.
      apply IH. intros Hall. apply Hbad. by constructor.
    + by rewrite _get_labels_tag_malformed.
Qed.

Lemma _get_labels_malformed_corpus (corpus : list Example) :
  ¬ well_formed_corpus corpus →
  _get_labels corpus = Raise (ValueError "not enough values to unpack").
Proof.
  unfold _get_labels, well_formed_corpus.
  generalize (∅ : gset string) as labels.
  induction corpus as [|eg corpus IH]; intros labels Hbad.
  - by destruct Hbad.
  - simpl.
    destruct (decide (Forall well_formed_tag (entities (token_annotation eg))))
      as [Hwf|Hnwf].
    + destruct (for_each_union _get_labels_tag well_formed_tag tag_label
                  (entities (token_annotation eg)) labels) as (labels' & -> & _);
        [apply _get_labels_tag_spec|done|].
      simpl. apply IH. intros Hall. apply Hbad. by constructor.
    + by rewrite _get_labels_tags_malformed.
Qed.

(** X13: [_get_labels] returns a list exactly on a corpus whose tags are all
    ["O"] or hold a hyphen; on any other corpus it raises the [ValueError] of
    the unpacking of [split], at the first tag that is neither. *)
Theorem get_labels_raises_iff (corpus : list Example) :
  ((∃ ls, _get_labels corpus = Ok ls) ↔ well_formed_corpus corpus) ∧
  (_get_labels corpus = Raise (ValueError "not enough values to unpack") ↔
     ¬ well_formed_corpus corpus).
Proof.
  destruct (decide (well_formed_corpus corpus)) as [Hwf|Hbad].
  - destruct (_get_labels_set corpus Hwf) as (s & Hs & _). split.
    + split; [done|]. intros _. eauto.
    + rewrite Hs. split; [done|]. by intros [].
  - pose proof (_get_labels_malformed_corpus corpus Hbad) as Hr. split.
    + rewrite Hr. split; [by intros [? ?]|]. by intros ?.
    + by rewrite Hr.
Qed.

(** ** [get_loss]: the loop over the pairs *)

Lemma for_each_app {A S} (body : S → A → result S) (acc : S) (xs ys : list A) :
  for_each body acc (xs ++ ys) = for_each body acc xs ≫= λ acc', for_each body acc' ys.
Proof.
  revert acc. induction xs as [|x xs IH]; intros acc; simpl; [done|].
  destruct (body acc x) as [acc'|]; simpl; [apply IH|done].
Qed.

(** X14: when the loss function returns for every pair of an example and a
    score matrix, [get_loss] returns the losses of the pairs added up from
    zero in order, and their gradients in the order of the pairs. *)
Theorem get_loss_adds_up `{Thinc F} (m : Model) (names : list string)
    (examples : list Example) (scores : list (Floats2d F))
    (outs : list (Floats2d F * F)) :
  get_tag_names m = Ok names →
  Forall2 (λ '(eg, doc_scores) out,
             CategoricalCrossentropy names doc_scores (ner (gold eg)) = Ok out)
          (zip examples scores) outs →
  get_loss m examples scores = Ok (foldl fadd f0 outs.*2, outs.*1).
Proof. apply get_loss_sum. Qed.

Lemma get_loss_adds_up_witness :
  get_tag_names (model_of (ALabels ["PERSON"]))
    = Ok ["B-PERSON"; "I-PERSON"; "L-PERSON"; "U-PERSON"; "O"] ∧
  Forall2 (λ '(eg, doc_scores) out,
             CategoricalCrossentropy
               ["B-PERSON"; "I-PERSON"; "L-PERSON"; "U-PERSON"; "O"]
               doc_scores (ner (gold eg)) = Ok out)
          (zip [example_of ["U-PERSON"]; example_of ["O"; "O"]]
               [mkFloats2d 5 [[0; 0; 0; 7; 0]%Z];
                mkFloats2d 5 [[0; 0; 0; 0; 3]%Z; [1; 0; 0; 0; 1]%Z]])
          [(mkFloats2d 5 [[0; 0; 0; 6; 0]%Z], 36%Z);
           (mkFloats2d 5 [[0; 0; 0; 0; 2]%Z; [1; 0; 0; 0; 0]%Z], 5%Z)] ∧
  get_loss (model_of (ALabels ["PERSON"]))
    [example_of ["U-PERSON"]; example_of ["O"; "O"]]
    [mkFloats2d 5 [[0; 0; 0; 7; 0]%Z];
     mkFloats2d 5 [[0; 0; 0; 0; 3]%Z; [1; 0; 0; 0; 1]%Z]]
  = Ok (foldl fadd f0 [(mkFloats2d 5 [[0; 0; 0; 6; 0]%Z], 36%Z);
                       (mkFloats2d 5 [[0; 0; 0; 0; 2]%Z; [1; 0; 0; 0; 0]%Z], 5%Z)].*2,
        [(mkFloats2d 5 [[0; 0; 0; 6; 0]%Z], 36%Z);
         (mkFloats2d 5 [[0; 0; 0; 0; 2]%Z; [1; 0; 0; 0; 0]%Z], 5%Z)].*1).
Proof.
  assert (Forall2 (λ '(eg, doc_scores) out,
             CategoricalCrossentropy
               ["B-PERSON"; "I-PERSON"; "L-PERSON"; "U-PERSON"; "O"]
               doc_scores (ner (gold eg)) = Ok out)
          (zip [example_of ["U-PERSON"]; example_of ["O"; "O"]]
               [mkFloats2d 5 [[0; 0; 0; 7; 0]%Z];
                mkFloats2d 5 [[0; 0; 0; 0; 3]%Z; [1; 0; 0; 0; 1]%Z]])
          [(mkFloats2d 5 [[0; 0; 0; 6; 0]%Z], 36%Z);
           (mkFloats2d 5 [[0; 0; 0; 0; 2]%Z; [1; 0; 0; 0; 0]%Z], 5%Z)]) as Hall.
  { repeat constructor; vm_compute; reflexivity. }
  split; [reflexivity|]. split; [exact Hall|].
  exact (get_loss_adds_up (model_of (ALabels ["PERSON"])) _ _ _ _ eq_refl Hall).
Defined.

(** X15: when the loss function raises on a pair and has returned on all
    pairs before it, [get_loss] raises that exception: the pairs after it are
    not looked at and no loss or gradient is returned. *)
Theorem get_loss_first_failure `{Thinc F} (m : Model) (names : list string)
    (examples : list Example) (scores : list (Floats2d F))
    (before rest : list (Example * Floats2d F)) (outs : list (Floats2d F * F))
    (eg : Example) (doc_scores : Floats2d F) (e : exn) :
  get_tag_names m = Ok names →
  zip examples scores = before ++ (eg, doc_scores) :: rest →
  Forall2 (λ '(eg, doc_scores) out,
             CategoricalCrossentropy names doc_scores (ner (gold eg)) = Ok out)
          before outs →
  CategoricalCrossentropy names doc_scores (ner (gold eg)) = Raise e →
  get_loss m examples scores = Raise e.
Proof.
  intros Hn Hzip Hbefore Hfail. unfold get_loss. rewrite Hn. simpl.
  rewrite Hzip, for_each_app.
  rewrite (get_loss_loop_sum _ _ outs) by done. simpl. by rewrite Hfail.
Qed.

Lemma get_loss_first_failure_witness :
  get_tag_names (model_of (ALabels ["PERSON"]))
    = Ok ["B-PERSON"; "I-PERSON"; "L-PERSON"; "U-PERSON"; "O"] ∧
  zip [example_of ["U-PERSON"]; example_of ["U-ORG"]; example_of ["O"]]
      [mkFloats2d 5 [[0; 0; 0; 7; 0]%Z]; mkFloats2d 5 [[0; 0; 0; 7; 0]%Z];
       mkFloats2d 5 [[0; 0; 0; 7; 0]%Z]]
    = [(example_of ["U-PERSON"], mkFloats2d 5 [[0; 0; 0; 7; 0]%Z])] ++
      (example_of ["U-ORG"], mkFloats2d 5 [[0; 0; 0; 7; 0]%Z]) ::
      [(example_of ["O"], mkFloats2d 5 [[0; 0; 0; 7; 0]%Z])] ∧
  Forall2 (λ '(eg, doc_scores) out,
             CategoricalCrossentropy
               ["B-PERSON"; "I-PERSON"; "L-PERSON"; "U-PERSON"; "O"]
               doc_scores (ner (gold eg)) = Ok out)
          [(example_of ["U-PERSON"], mkFloats2d 5 [[0; 0; 0; 7; 0]%Z])]
          [(mkFloats2d 5 [[0; 0; 0; 6; 0]%Z], 36%Z)] ∧
  CategoricalCrossentropy ["B-PERSON"; "I-PERSON"; "L-PERSON"; "U-PERSON"; "O"]
    (mkFloats2d 5 [[0; 0; 0; 7; 0]%Z]) (ner (gold (example_of ["U-ORG"])))
    = Raise (KeyError "U-ORG") ∧
  get_loss (model_of (ALabels ["PERSON"]))
    [example_of ["U-PERSON"]; example_of ["U-ORG"]; example_of ["O"]]
    [mkFloats2d 5 [[0; 0; 0; 7; 0]%Z]; mkFloats2d 5 [[0; 0; 0; 7; 0]%Z];
     mkFloats2d 5 [[0; 0; 0; 7; 0]%Z]]
  = Raise (KeyError "U-ORG").
Proof.
  assert (Forall2 (λ '(eg, doc_scores) out,
             CategoricalCrossentropy
               ["B-PERSON"; "I-PERSON"; "L-PERSON"; "U-PERSON"; "O"]
               doc_scores (ner (gold eg)) = Ok out)
          [(example_of ["U-PERSON"], mkFloats2d 5 [[0; 0; 0; 7; 0]%Z])]
          [(mkFloats2d 5 [[0; 0; 0; 6; 0]%Z], 36%Z)]) as Hbefore.
  { repeat constructor; vm_compute; reflexivity. }
  assert (CategoricalCrossentropy ["B-PERSON"; "I-PERSON"; "L-PERSON"; "U-PERSON"; "O"]
            (mkFloats2d 5 [[0; 0; 0; 7; 0]%Z]) (ner (gold (example_of ["U-ORG"])))
          = Raise (KeyError "U-ORG")) as Hfail.
  { vm_compute. reflexivity. }
  split; [reflexivity|]. split; [reflexivity|]. split; [exact Hbefore|].
  split; [exact Hfail|].
  exact (get_loss_first_failure (model_of (ALabels ["PERSON"]))
           ["B-PERSON"; "I-PERSON"; "L-PERSON"; "U-PERSON"; "O"]
           [example_of ["U-PERSON"]; example_of ["U-ORG"]; example_of ["O"]]
           [mkFloats2d 5 [[0; 0; 0; 7; 0]%Z]; mkFloats2d 5 [[0; 0; 0; 7; 0]%Z];
            mkFloats2d 5 [[0; 0; 0; 7; 0]%Z]]
           [(example_of ["U-PERSON"], mkFloats2d 5 [[0; 0; 0; 7; 0]%Z])]
           [(example_of ["O"], mkFloats2d 5 [[0; 0; 0; 7; 0]%Z])]
           [(mkFloats2d 5 [[0; 0; 0; 6; 0]%Z], 36%Z)]
           (example_of ["U-ORG"]) (mkFloats2d 5 [[0; 0; 0; 7; 0]%Z])
           (KeyError "U-ORG") eq_refl eq_refl Hbefore Hfail).
Defined.

(** ** [begin_training]: what each kind of corpus leads to *)

Lemma set_mish_dims_Ok (n_actions : nat) (walk : list Node) :
  set_mish_dims n_actions walk = Ok (with_mish_dim n_actions <$> walk).
Proof.
  unfold set_mish_dims. induction walk as [|node rest IH]; [done|].
  simpl. rewrite IH.
  assert (match has_dim node "nO" with
          | None => if bool_decide (name node = "mish")
                    then set_dim node "nO" n_actions else Ok node
          | Some _ => Ok node
          end = Ok (with_mish_dim n_actions node)) as ->; [|done].
  unfold with_mish_dim, has_dim, set_dim.
  destruct (dims node !! "nO") as [[old|]|] eqn:Hd; simpl; [done| |done].
  by case_bool_decide.
Qed.

(** X16: the fallback loop of [begin_training] over [model.walk()] never
    raises: it sets the ["nO"] dimension of the nodes named ["mish"] whose
    ["nO"] is declared and not set, and leaves every other node alone. *)
Theorem set_mish_dims_total (n_actions : nat) (walk : list Node) :
  set_mish_dims n_actions walk = Ok (with_mish_dim n_actions <$> walk).
Proof. apply set_mish_dims_Ok. Qed.

Example set_mish_dims_example :
  set_mish_dims 9 (nodes (mish_model_of ANone))
  = Ok [mkNode "mish" ∅ {[ "nO" := Some 9 ]}; biluo_node ANone].
Proof. vm_compute. reflexivity. Qed.

Lemma sorted_sorted (ls : list string) : sorted (sorted ls) = sorted ls.
Proof.
  apply (Sorted_unique String.le).
  - apply Sorted_merge_sort, _.
  - apply Sorted_merge_sort, _.
  - apply merge_sort_Permutation.
Qed.

Lemma begin_training_on_corpus `{Thinc F}
    (self : SimpleNER) (get_examples : provider) (kwargs : gmap string string) :
  well_formed_corpus (call_provider get_examples) →
  call_provider get_examples ≠ [] →
  ∃ ls,
    _get_labels (call_provider get_examples) = Ok ls ∧
    begin_training self get_examples kwargs
    = ({| model := (_set_labels (model self) ls).1; cfg := kwargs ∪ cfg self |},
       Raise (NameError "parses")).
Proof.
  intros Hwf Hne. destruct (_get_labels_set _ Hwf) as (s & Hget & _).
  eexists. split; [done|]. unfold begin_training. rewrite Hget. simpl.
  destruct (call_provider get_examples) as [|eg rest]; [done|].
  by rewrite _get_sample_raises.
Qed.

(** X17: on a corpus of well-formed tags that is not empty, [begin_training]
    records the keyword arguments, hands the discovered labels to
    [_set_labels] and then raises the [NameError] of [_get_sample]: the
    model is never initialized. *)
Theorem begin_training_nonempty `{Thinc F}
    (self : SimpleNER) (get_examples : provider) (kwargs : gmap string string) :
  well_formed_corpus (call_provider get_examples) →
  call_provider get_examples ≠ [] →
  ∃ ls,
    _get_labels (call_provider get_examples) = Ok ls ∧
    begin_training self get_examples kwargs
    = ({| model := (_set_labels (model self) ls).1; cfg := kwargs ∪ cfg self |},
       Raise (NameError "parses")).
Proof. apply begin_training_on_corpus. Qed.

Lemma begin_training_nonempty_witness :
  well_formed_corpus (call_provider (Fixed [example_of ["U-GPE"; "O"; "U-ORG"]])) ∧
  call_provider (Fixed [example_of ["U-GPE"; "O"; "U-ORG"]]) ≠ [] ∧
  ∃ ls,
    _get_labels (call_provider (Fixed [example_of ["U-GPE"; "O"; "U-ORG"]])) = Ok ls ∧
    begin_training (F := Z) (mkSimpleNER (mish_model_of ANone) ∅)
      (Fixed [example_of ["U-GPE"; "O"; "U-ORG"]]) ∅
    = ({| model := (_set_labels (model (mkSimpleNER (mish_model_of ANone) ∅)) ls).1;
          cfg := ∅ ∪ cfg (mkSimpleNER (mish_model_of ANone) ∅) |},
       Raise (NameError "parses")).
Proof.
  assert (well_formed_corpus
            (call_provider (Fixed [example_of ["U-GPE"; "O"; "U-ORG"]]))) as Hwf.
  { apply (bool_decide_unpack _). vm_compute. exact I. }
  assert (call_provider (Fixed [example_of ["U-GPE"; "O"; "U-ORG"]]) ≠ []) as Hne
    by done.
  split; [exact Hwf|]. split; [exact Hne|].
  exact (begin_training_nonempty (F := Z) (mkSimpleNER (mish_model_of ANone) ∅)
           (Fixed [example_of ["U-GPE"; "O"; "U-ORG"]]) ∅ Hwf Hne).
Defined.

(** X18: on a model whose registry is not set, a [begin_training] that
    raises on its non-empty corpus has already stored the labels: the
    registry is then the list [_get_labels] finds in the corpus, sorted and
    without duplicates. *)
Theorem begin_training_stores_labels `{Thinc F}
    (self : SimpleNER) (get_examples : provider) (kwargs : gmap string string)
    (i : nat) :
  well_formed_corpus (call_provider get_examples) →
  call_provider get_examples ≠ [] →
  refs (model self) !! "biluo" = Some i →
  first_unset_biluo (nodes (model self)) i →
  ∃ ls,
    _get_labels (call_provider get_examples) = Ok ls ∧
    (begin_training self get_examples kwargs).2 = Raise (NameError "parses") ∧
    labels (model (begin_training self get_examples kwargs).1) = Ok (ALabels ls).
Proof.
  intros Hwf Hne Hr [(n & Hn & Hname & Hnone) Hfirst].
  destruct (_get_labels_set _ Hwf) as (s & Hget & _).
  destruct (begin_training_on_corpus self get_examples kwargs Hwf Hne)
    as (ls & Hget' & ->).
  exists ls. split; [done|]. split; [done|].
  change (labels (_set_labels (model self) ls).1 = Ok (ALabels ls)).
  destruct (_set_labels_fresh (model self) ls i n) as [Hl _];
    [by apply get_ref_Ok|done..|].
  rewrite Hl. rewrite Hget in Hget'. injection Hget' as <-. by rewrite sorted_sorted.
Qed.

Lemma begin_training_stores_labels_witness :
  well_formed_corpus (call_provider (Fixed [example_of ["U-GPE"; "O"; "U-ORG"]])) ∧
  call_provider (Fixed [example_of ["U-GPE"; "O"; "U-ORG"]]) ≠ [] ∧
  refs (model (mkSimpleNER (mish_model_of ANone) ∅)) !! "biluo" = Some 1 ∧
  first_unset_biluo (nodes (model (mkSimpleNER (mish_model_of ANone) ∅))) 1 ∧
  ∃ ls,
    _get_labels (call_provider (Fixed [example_of ["U-GPE"; "O"; "U-ORG"]])) = Ok ls ∧
    (begin_training (F := Z) (mkSimpleNER (mish_model_of ANone) ∅)
       (Fixed [example_of ["U-GPE"; "O"; "U-ORG"]]) ∅).2 = Raise (NameError "parses") ∧
    labels (model (begin_training (F := Z) (mkSimpleNER (mish_model_of ANone) ∅)
                     (Fixed [example_of ["U-GPE"; "O"; "U-ORG"]]) ∅).1)
      = Ok (ALabels ls).
Proof.
  assert (well_formed_corpus
            (call_provider (Fixed [example_of ["U-GPE"; "O"; "U-ORG"]]))) as Hwf.
  { apply (bool_decide_unpack _). vm_compute. exact I. }
  assert (call_provider (Fixed [example_of ["U-GPE"; "O"; "U-ORG"]]) ≠ []) as Hne
    by done.
  assert (first_unset_biluo (nodes (model (mkSimpleNER (mish_model_of ANone) ∅))) 1)
    as Hfirst.
  { split.
    - eexists. split; [reflexivity|]. split; reflexivity.
    - intros [|j] n' Hj Hn'; [|lia]. injection Hn' as <-. left. done. }
  split; [exact Hwf|]. split; [exact Hne|]. split; [reflexivity|].
  split; [exact Hfirst|].
  exact (begin_training_stores_labels (F := Z) (mkSimpleNER (mish_model_of ANone) ∅)
           (Fixed [example_of ["U-GPE"; "O"; "U-ORG"]]) ∅ 1 Hwf Hne eq_refl Hfirst).
Defined.

(** X19: on a corpus with a tag that is neither ["O"] nor holds a hyphen,
    [begin_training] raises [ValueError] from label discovery; the keyword
    arguments are recorded, the model is not touched. *)
Theorem begin_training_malformed `{Thinc F}
    (self : SimpleNER) (get_examples : provider) (kwargs : gmap string string) :
  ¬ well_formed_corpus (call_provider get_examples) →
  begin_training self get_examples kwargs
  = ({| model := model self; cfg := kwargs ∪ cfg self |},
     Raise (ValueError "not enough values to unpack")).
Proof.
  intros Hbad. unfold begin_training.
  by rewrite (_get_labels_malformed_corpus _ Hbad).
Qed.

Lemma begin_training_malformed_witness :
  ¬ well_formed_corpus (call_provider (Callable (λ _, [example_of ["PERSON"]]))) ∧
  begin_training (F := Z) (mkSimpleNER (model_of ANone) ∅)
    (Callable (λ _, [example_of ["PERSON"]])) {[ "learn_rate" := "0.001" ]}
  = ({| model := model (mkSimpleNER (model_of ANone) ∅);
        cfg := {[ "learn_rate" := "0.001" ]} ∪ cfg (mkSimpleNER (model_of ANone) ∅) |},
     Raise (ValueError "not enough values to unpack")).
Proof.
  assert (¬ well_formed_corpus
            (call_provider (Callable (λ _, [example_of ["PERSON"]])))) as Hbad.
  { apply (bool_decide_unpack _). vm_compute. exact I. }
  split; [exact Hbad|].
  exact (begin_training_malformed (F := Z) (mkSimpleNER (model_of ANone) ∅)
           (Callable (λ _, [example_of ["PERSON"]])) {[ "learn_rate" := "0.001" ]} Hbad).
Defined.

(** X20: with no examples [begin_training] discovers no label, sizes the
    action space at one action, builds no sample, sets the open ["nO"] of the
    ["mish"] nodes to one and calls [initialize] without a sample; it returns
    when [initialize] does and raises what [initialize] raises. *)
Theorem begin_training_no_examples `{Thinc F}
    (self : SimpleNER) (get_examples : provider) (kwargs : gmap string string) :
  call_provider get_examples = [] →
  ∃ m2,
    m2 = {| nodes := with_mish_dim 1 <$> nodes (_set_labels (model self) []).1;
            refs := refs (model self) |} ∧
    begin_training self get_examples kwargs
    = match initialize m2 None with
      | Ok m3 => ({| model := m3; cfg := kwargs ∪ cfg self |}, Ok tt)
      | Raise e => ({| model := m2; cfg := kwargs ∪ cfg self |}, Raise e)
      end.
Proof.
  intros Hempty. eexists. split; [done|].
  unfold begin_training. rewrite Hempty. simpl.
  rewrite set_mish_dims_Ok. simpl.
  by destruct (initialize _ None).
Qed.

Lemma begin_training_no_examples_witness :
  call_provider (Fixed []) = [] ∧
  ∃ m2,
    m2 = {| nodes := with_mish_dim 1 <$>
                       nodes (_set_labels (model (mkSimpleNER (mish_model_of ANone) ∅)) []).1;
            refs := refs (model (mkSimpleNER (mish_model_of ANone) ∅)) |} ∧
    begin_training (F := Z) (mkSimpleNER (mish_model_of ANone) ∅) (Fixed []) ∅
    = match initialize (F := Z) m2 None with
      | Ok m3 => ({| model := m3; cfg := ∅ ∪ cfg (mkSimpleNER (mish_model_of ANone) ∅) |},
                  Ok tt)
      | Raise e => ({| model := m2; cfg := ∅ ∪ cfg (mkSimpleNER (mish_model_of ANone) ∅) |},
                    Raise e)
      end.
Proof.
  split; [reflexivity|].
  apply (begin_training_no_examples (F := Z) (mkSimpleNER (mish_model_of ANone) ∅)
           (Fixed []) ∅).
  reflexivity.
Defined.

Example begin_training_no_examples_model :
  begin_training (F := Z) (mkSimpleNER (mish_model_of ANone) ∅) (Fixed []) ∅
  = ({| model := mkModel [mkNode "mish" ∅ {[ "nO" := Some 1 ]}; biluo_node (ALabels [])]
                         {[ "biluo" := 1 ]};
        cfg := ∅ |}, Ok tt).
Proof. vm_compute. reflexivity. Qed.

(** X21: whatever the outcome, [begin_training] has merged the keyword
    arguments into [cfg]: a key given as keyword argument holds the new
    value, every other key keeps its value. *)
Theorem begin_training_cfg `{Thinc F}
    (self : SimpleNER) (get_examples : provider) (kwargs : gmap string string) :
  cfg (begin_training self get_examples kwargs).1 = kwargs ∪ cfg self ∧
  ∀ k, cfg (begin_training self get_examples kwargs).1 !! k
       = match kwargs !! k with
         | Some v => Some v
         | None => cfg self !! k
         end.
Proof.
  assert (cfg (begin_training self get_examples kwargs).1 = kwargs ∪ cfg self) as Hcfg.
  { unfold begin_training.
    destruct (_get_labels (call_provider get_examples)) as [discovered|]; [|done].
    simpl.
    destruct (_get_sample _ _ _) as [[doc_sample output_sample]|]; [|done].
    destruct doc_sample as [|d doc_sample].
    - destruct (set_mish_dims _ _) as [walk|]; [|done].
      by destruct (initialize _ None).
    - by destruct (initialize _ (Some _)). }
  split; [done|]. intros k. rewrite Hcfg, lookup_union.
  by destruct (kwargs !! k), (cfg self !! k).
Qed.

(** ** [update] *)

(** X22: whenever [update] raises, the [losses] dictionary is as the caller
    passed it; and with [set_annotations] asked for and at least one example
    it always raises, since [set_annotations] does. *)
Theorem update_raises `{Training F Opt}
    (m : Model) (examples : list Example) (set_annotations_flag : bool) (drop : F)
    (sgd : option Opt) (losses : option (gmap string F)) :
  (∀ e, (update m examples set_annotations_flag drop sgd losses).2 = Raise e →
        (update m examples set_annotations_flag drop sgd losses).1.2 = losses) ∧
  (∀ converted,
     set_annotations_flag = true →
     to_example_objects examples = Ok converted →
     converted ≠ [] →
     ∃ e, (update m examples set_annotations_flag drop sgd losses).2 = Raise e).
Proof.
  unfold update. split.
  - intros e.
    destruct (to_example_objects examples) as [converted|]; [|done].
    destruct (begin_update _ _) as [[scores bp_scores]|]; [|done].
    destruct (get_loss _ _ _) as [[loss d_scores]|]; [|done].
    destruct (bp_scores _ _) as [m1|]; [|done].
    destruct (if set_annotations_flag then _ else _) as [docs annotated]; simpl.
    destruct annotated as [u|]; [|done].
    by destruct (match sgd with Some _ => _ | None => _ end).
  - intros converted -> -> Hne.
    destruct (begin_update _ _) as [[scores bp_scores]|]; [|by eexists].
    destruct (get_loss _ _ _) as [[loss d_scores]|]; [|by eexists].
    destruct (bp_scores _ _) as [m1|]; [|by eexists].
    destruct (set_annotations_raises m1 (doc <$> converted) scores) as [_ [e He]].
    { by destruct converted. }
    rewrite He. by eexists.
Qed.

Example update_with_annotations :
  (update (F := Z) (Opt := unit) (model_of (ALabels ["PERSON"]))
     [example_of ["U-PERSON"]] true 0%Z None (Some {[ "simple_ner" := 2%Z ]})).2
  = Raise (IndexError "too many indices for array").
Proof. vm_compute. reflexivity. Qed.

(** X23: when [update] returns a loss, it is the loss [get_loss] computes
    from the converted examples and the scores of [begin_update]; no
    annotation was asked for unless the batch was empty; and in [losses] the
    entry of the pipe is its old value, or zero, plus that loss, while every
    other entry is unchanged. *)
Theorem update_returns `{Training F Opt}
    (m : Model) (examples : list Example) (set_annotations_flag : bool) (drop : F)
    (sgd : option Opt) (losses : option (gmap string F)) (loss : F) :
  (update m examples set_annotations_flag drop sgd losses).2 = Ok loss →
  ∃ converted scores bp_scores d_scores,
    to_example_objects examples = Ok converted ∧
    begin_update (set_dropout_rate m drop) (doc <$> converted) = Ok (scores, bp_scores) ∧
    get_loss (set_dropout_rate m drop) converted scores = Ok (loss, d_scores) ∧
    (set_annotations_flag = true → converted = []) ∧
    (update m examples set_annotations_flag drop sgd losses).1.1.2 = doc <$> converted ∧
    (update m examples set_annotations_flag drop sgd losses).1.2
      = (λ l, add_loss l loss) <$> losses ∧
    ∀ l, losses = Some l →
      ∃ l', (update m examples set_annotations_flag drop sgd losses).1.2 = Some l' ∧
            l' !! pipe_name = Some (fadd (default f0 (l !! pipe_name)) loss) ∧
            ∀ k, k ≠ pipe_name → l' !! k = l !! k.
Proof.
  unfold update.
  destruct (to_example_objects examples) as [converted|]; [|done].
  destruct (begin_update _ _) as [[scores bp_scores]|] eqn:Hbegin; [|done].
  destruct (get_loss _ _ _) as [[loss' d_scores]|] eqn:Hloss; [|done].
  destruct (bp_scores _ _) as [m1|]; [|done].
  destruct (if set_annotations_flag then _ else _) as [docs annotated] eqn:Hann.
  simpl. destruct annotated as [u|]; [|done]. destruct u.
  destruct (match sgd with Some _ => _ | None => _ end) as [m2|]; [|done].
  simpl. intros [= ->].
  assert (docs = doc <$> converted ∧ (set_annotations_flag = true → converted = []))
    as [-> Hflag].
  { destruct set_annotations_flag.
    - destruct (set_annotations_outcome m1 (doc <$> converted) scores) as [Hdocs Hok].
      rewrite Hann in Hdocs, Hok. simpl in Hdocs, Hok. split; [done|]. intros _.
      destruct (proj1 Hok eq_refl) as [Hnil _]. by destruct converted.
    - injection Hann as <-. split; [done|]. done. }
  exists converted, scores, bp_scores, d_scores. split_and!; [done..|].
  intros l ->. eexists. split; [done|]. unfold add_loss. split.
  - apply lookup_insert_eq.
  - intros k Hk. by apply lookup_insert_ne.
Qed.

Lemma update_returns_witness :
  (update (F := Z) (Opt := unit) (model_of (ALabels ["PERSON"]))
     [example_of ["U-PERSON"]] false 0%Z None
     (Some {[ "simple_ner" := 2%Z; "tagger" := 5%Z ]})).2 = Ok 1%Z ∧
  ∃ converted scores bp_scores d_scores,
    to_example_objects (F := Z) (Opt := unit) [example_of ["U-PERSON"]] = Ok converted ∧
    begin_update (F := Z) (Opt := unit)
      (set_dropout_rate (F := Z) (Opt := unit) (model_of (ALabels ["PERSON"])) 0%Z)
      (doc <$> converted) = Ok (scores, bp_scores) ∧
    get_loss (set_dropout_rate (F := Z) (Opt := unit) (model_of (ALabels ["PERSON"])) 0%Z)
      converted scores = Ok (1%Z, d_scores) ∧
    (false = true → converted = []) ∧
    (update (F := Z) (Opt := unit) (model_of (ALabels ["PERSON"]))
       [example_of ["U-PERSON"]] false 0%Z None
       (Some {[ "simple_ner" := 2%Z; "tagger" := 5%Z ]})).1.1.2 = doc <$> converted ∧
    (update (F := Z) (Opt := unit) (model_of (ALabels ["PERSON"]))
       [example_of ["U-PERSON"]] false 0%Z None
       (Some {[ "simple_ner" := 2%Z; "tagger" := 5%Z ]})).1.2
      = (λ l, add_loss l 1%Z) <$> Some {[ "simple_ner" := 2%Z; "tagger" := 5%Z ]} ∧
    ∀ l, Some ({[ "simple_ner" := 2%Z; "tagger" := 5%Z ]} : gmap string Z) = Some l →
      ∃ l', (update (F := Z) (Opt := unit) (model_of (ALabels ["PERSON"]))
               [example_of ["U-PERSON"]] false 0%Z None
               (Some {[ "simple_ner" := 2%Z; "tagger" := 5%Z ]})).1.2 = Some l' ∧
            l' !! pipe_name = Some (fadd (default f0 (l !! pipe_name)) 1%Z) ∧
            ∀ k, k ≠ pipe_name → l' !! k = l !! k.
Proof.
  assert ((update (F := Z) (Opt := unit) (model_of (ALabels ["PERSON"]))
             [example_of ["U-PERSON"]] false 0%Z None
             (Some {[ "simple_ner" := 2%Z; "tagger" := 5%Z ]})).2 = Ok 1%Z) as Hret.
  { vm_compute. reflexivity. }
  split; [exact Hret|].
  exact (update_returns (F := Z) (Opt := unit) (model_of (ALabels ["PERSON"]))
           [example_of ["U-PERSON"]] false 0%Z None
           (Some {[ "simple_ner" := 2%Z; "tagger" := 5%Z ]}) 1%Z Hret).
Defined.

Example update_accumulates :
  (update (F := Z) (Opt := unit) (model_of (ALabels ["PERSON"]))
     [example_of ["U-PERSON"]] false 0%Z None
     (Some {[ "simple_ner" := 2%Z; "tagger" := 5%Z ]})).1.2
  = Some {[ "simple_ner" := 3%Z; "tagger" := 5%Z ]}.
Proof. vm_compute. reflexivity. Qed.
